(** * The offline response-cache controller of HAPass (static/sw.js)

    A shallow embedding of the service worker: its three listeners
    (install, activate, fetch) as the script has them, over a model of what
    they call in the browser: [fetch], the Cache API ([caches.open],
    [caches.match], [caches.keys], [caches.delete], [cache.put],
    [cache.addAll]) and the life cycle of a worker (install, then
    activation).  The properties are those of the cache-generation life
    cycle, of the route classification and of the caching strategies. *)

From Stdlib Require Import Ascii.
From stdpp Require Import base option list gmap strings.

Local Open Scope string_scope.
Local Open Scope list_scope.

(** ** Strings as the listeners use them *)

(** [s.startsWith(p)] *)
Fixpoint startsWith (s p : string) {struct p} : bool :=
  match p with
  | EmptyString => true
  | String c p' =>
      match s with
      | EmptyString => false
      | String d s' => if Ascii.eqb d c then startsWith s' p' else false
      end
  end.

(** [s.includes(p)]: [p] starts at some position of [s]. *)
Fixpoint includes (s p : string) : bool :=
  startsWith s p ||
  match s with
  | EmptyString => false
  | String _ s' => includes s' p
  end.

(** ** Requests, responses and the network *)

(** The parts of a parsed [URL] that the worker and the cache look at. *)
Record URL := mkURL {
  protocol : string;
  hostname : string;
  port : string;
  pathname : string;
  search : string
}.

Record Request := mkRequest {
  method : string;
  url : URL
}.

(** A response: its status, whether its [Vary] header lists [*], its bytes. *)
Record Response := mkResponse {
  status : nat;
  vary_star : bool;
  body : string
}.

(** [response.ok]: a status in the range 200-299. *)
Definition ok (r : Response) : bool :=
  (200 <=? status r)%nat && (status r <=? 299)%nat.

(** What [fetch(request)] settles to: a rejection (no response could be
    obtained) or a response of any status. *)
Inductive FetchResult :=
  | NetworkError
  | Fetched (r : Response).

Definition Network := Request -> FetchResult.

#[global] Instance URL_eq_dec : EqDecision URL.
Proof. solve_decision. Defined.

#[global] Instance URL_countable : Countable URL.
Proof.
  refine (inj_countable'
    (fun u => (protocol u, hostname u, port u, pathname u, search u))
    (fun t => let '(a, b, c, d, e) := t in mkURL a b c d e) _).
  intros []; reflexivity.
Defined.

#[global] Instance Request_eq_dec : EqDecision Request.
Proof. solve_decision. Defined.

#[global] Instance Response_eq_dec : EqDecision Response.
Proof. solve_decision. Defined.

(** ** The Cache API, as far as the worker calls it

    These are the browser's operations, after the Service Worker
    specification.  Request headers are not modelled: an entry is found by
    the URL of a GET request.  Every operation on the stores is taken to
    succeed; what [cache.put] and [cache.addAll] reject is modelled. *)

(** A [Cache]: stored responses keyed by the URL of a GET request. *)
Abbreviation Cache := (gmap URL Response).

(** [caches]: the named stores of the origin, in creation order. *)
Abbreviation CacheStorage := (list (string * Cache)).

(** The store called [name], if there is one. *)
Fixpoint store (name : string) (cs : CacheStorage) : option Cache :=
  match cs with
  | [] => None
  | (n, c) :: cs' => if decide (n = name) then Some c else store name cs'
  end.

(** [caches.keys()] *)
Definition keys (cs : CacheStorage) : list string := cs.*1.

(** [caches.open(name)]: the store is created, empty, when there is none. *)
Definition open (name : string) (cs : CacheStorage) : CacheStorage :=
  match store name cs with
  | Some _ => cs
  | None => cs ++ [(name, ∅)]
  end.

(** [caches.delete(name)] *)
Definition delete_store (name : string) (cs : CacheStorage) : CacheStorage :=
  filter (fun nc => nc.1 ≠ name) cs.

(** [cache.match(request)]: only a GET request matches an entry. *)
Definition cache_match (c : Cache) (req : Request) : option Response :=
  if decide (method req = "GET") then c !! url req else None.

(** [caches.match(request)]: the stores are searched in creation order and
    the first entry found is the answer. *)
Fixpoint match_all (cs : CacheStorage) (req : Request) : option Response :=
  match cs with
  | [] => None
  | (_, c) :: cs' =>
      match cache_match c req with
      | Some r => Some r
      | None => match_all cs' req
      end
  end.

(** The name of the store that [caches.match(request)] answers from. *)
Fixpoint match_source (cs : CacheStorage) (req : Request) : option string :=
  match cs with
  | [] => None
  | (n, c) :: cs' =>
      match cache_match c req with
      | Some _ => Some n
      | None => match_source cs' req
      end
  end.

(** [cache.put] rejects a request that is not a GET, a 206 response and a
    response whose [Vary] header lists [*]. *)
Definition put_accepts (req : Request) (r : Response) : bool :=
  bool_decide (method req = "GET") && negb (status r =? 206)%nat
  && negb (vary_star r).

(** Applies [f] to the store called [name]. *)
Fixpoint update_store (name : string) (f : Cache -> Cache)
    (cs : CacheStorage) : CacheStorage :=
  match cs with
  | [] => []
  | (n, c) :: cs' =>
      if decide (n = name) then (n, f c) :: cs'
      else (n, c) :: update_store name f cs'
  end.

(** [cache.put(request, response)] on the store called [name]: the entry for
    the request's URL is replaced as a whole. *)
Definition put (name : string) (req : Request) (r : Response)
    (cs : CacheStorage) : CacheStorage :=
  if put_accepts req r then update_store name (insert (url req) r) cs else cs.

(** [cache.addAll] stores a response only if it is [ok], not a 206 and
    without [Vary: *]. *)
Definition addAll_accepts (r : Response) : bool :=
  ok r && negb (status r =? 206)%nat && negb (vary_star r).

(** ** The worker's effects

    A listener reads the network and reads and updates the stores.  Each
    call of the platform is logged, so that what a listener did (and what it
    did not do) can be stated.  A computation gives the value a promise
    chain settles to, and the stores and the log when every promise the
    listener started has settled; calls are logged in the order in which
    the script makes them. *)

Inductive Op :=
  | OpMatch (req : Request)
  | OpFetch (req : Request)
  | OpOpen (name : string)
  | OpPut (name : string) (req : Request) (r : Response)
  | OpAddAll (name : string) (reqs : list Request)
  | OpKeys
  | OpDelete (name : string)
  | OpSkipWaiting
  | OpClaim.

#[global] Instance Op_eq_dec : EqDecision Op.
Proof. solve_decision. Defined.

Definition is_cache_read (o : Op) : bool :=
  match o with OpMatch _ | OpKeys => true | _ => false end.

Definition is_cache_write (o : Op) : bool :=
  match o with
  | OpOpen _ | OpPut _ _ _ | OpAddAll _ _ | OpDelete _ => true
  | _ => false
  end.

Definition is_fetch (o : Op) : bool :=
  match o with OpFetch _ => true | _ => false end.

(** How many cache reads, cache writes and network fetches a log holds. *)
Definition cache_reads (t : list Op) : nat := length (filter is_cache_read t).
Definition cache_writes (t : list Op) : nat := length (filter is_cache_write t).
Definition fetches (t : list Op) : nat := length (filter is_fetch t).

Definition SW (A : Type) : Type :=
  Network -> CacheStorage -> A * CacheStorage * list Op.

#[global] Instance SW_ret : MRet SW :=
  fun A a _ cs => (a, cs, []).

#[global] Instance SW_bind : MBind SW :=
  fun A B f m net cs =>
    let '(a, cs1, t1) := m net cs in
    let '(b, cs2, t2) := f a net cs1 in
    (b, cs2, t1 ++ t2).

Definition caches_match (req : Request) : SW (option Response) :=
  fun _ cs => (match_all cs req, cs, [OpMatch req]).

Definition fetch (req : Request) : SW FetchResult :=
  fun net cs => (net req, cs, [OpFetch req]).

Definition caches_open (name : string) : SW unit :=
  fun _ cs => (tt, open name cs, [OpOpen name]).

Definition cache_put (name : string) (req : Request) (r : Response) : SW unit :=
  fun _ cs => (tt, put name req r cs, [OpPut name req r]).

Definition caches_keys : SW (list string) :=
  fun _ cs => (keys cs, cs, [OpKeys]).

Definition caches_delete (name : string) : SW unit :=
  fun _ cs => (tt, delete_store name cs, [OpDelete name]).

(** [self.skipWaiting()] and [self.clients.claim()] do not touch the stores;
    what they do to the life cycle is in [deploy] below. *)
Definition skipWaiting : SW unit :=
  fun _ cs => (tt, cs, [OpSkipWaiting]).

Definition clients_claim : SW unit :=
  fun _ cs => (tt, cs, [OpClaim]).

(** The responses [cache.addAll] obtained, if it obtained one it accepts for
    every request. *)
Definition fetch_all (reqs : list Request) (net : Network)
    : option (list (Request * Response)) :=
  mapM (fun req =>
          match net req with
          | Fetched r => if addAll_accepts r then Some (req, r) else None
          | NetworkError => None
          end) reqs.

Definition put_entries (entries : list (Request * Response)) (c : Cache) : Cache :=
  foldl (fun c e => <[url e.1 := e.2]> c) c entries.

(** [cache.addAll(requests)] on the store called [name]: every request is
    fetched, and the responses are stored together, or not at all when one
    of them is missing or not accepted.  The result tells whether the
    promise was fulfilled. *)
Definition cache_addAll (name : string) (reqs : list Request) : SW bool :=
  fun net cs =>
    match fetch_all reqs net with
    | Some entries =>
        (true, update_store name (put_entries entries) cs,
         (OpFetch <$> reqs) ++ [OpAddAll name reqs])
    | None => (false, cs, OpFetch <$> reqs)
    end.

(** What becomes of the fetch event: the listener returned without
    [respondWith] and the browser handles the request itself, or the promise
    given to [respondWith] was fulfilled with a response, or it was rejected
    or fulfilled with no response, which the page sees as a network error. *)
Inductive Outcome :=
  | NotIntercepted
  | Responded (r : Response)
  | RespondFailed.

(** What the page that made the request receives. *)
Definition client_receives (net : Network) (req : Request) (o : Outcome)
    : FetchResult :=
  match o with
  | NotIntercepted => net req
  | Responded r => Fetched r
  | RespondFailed => NetworkError
  end.

(** ** The worker script *)

Definition SHELL_ASSETS : list string :=
  [ "/static/dist.css";
    "/static/icons/icon-192.png";
    "/static/icons/icon-512.png";
    "/static/icons/icon-maskable-192.png";
    "/static/icons/icon-maskable-512.png";
    "/static/domains.js";
    "/static/theme.js";
    "/static/util.js";
    "/static/qrcode.min.js" ].

Section Worker.

(** The version the build writes into the script in place of
    [CACHE_VERSION_PLACEHOLDER], and the URL the script is served from
    ([self.location]). *)
Variable CACHE_VERSION : string.
Variable location : URL.

(** The request [cache.addAll] makes for a path of the asset list. *)
Definition shell_request (path : string) : Request :=
  mkRequest "GET"
    (mkURL (protocol location) (hostname location) (port location) path "").

(** The install listener; the result is whether the promise given to
    [event.waitUntil] was fulfilled.  [caches.open] is called while the
    argument of [waitUntil] is evaluated and [skipWaiting] before the
    listener returns; [addAll] runs when the store has been opened. *)
Definition install_listener : SW bool :=
  caches_open CACHE_VERSION;;
  skipWaiting;;
  cache_addAll CACHE_VERSION (shell_request <$> SHELL_ASSETS).

(** The activate listener, in the same way: [caches.keys], then
    [clients.claim], then the deletions when the keys are there. *)
Definition activate_listener : SW unit :=
  ks ← caches_keys;
  clients_claim;;
  mapM caches_delete (filter (fun k => k ≠ CACHE_VERSION) ks);;
  mret tt.

(** The two writes that follow a fetched response: the clone is put in the
    store of this version. *)
Definition store_clone (req : Request) (response : Response) : SW unit :=
  caches_open CACHE_VERSION;;
  cache_put CACHE_VERSION req response.

(** The branch for [/static/]: the fetch is started whether or not an entry
    was found, and the response is [cached || fetchPromise]. *)
Definition stale_while_revalidate (req : Request) : SW Outcome :=
  cached ← caches_match req;
  fetched ← fetch req;
  match fetched with
  | Fetched response => store_clone req response
  | NetworkError => mret tt
  end;;
  mret match cached with
       | Some c => Responded c
       | None =>
           match fetched with
           | Fetched response => Responded response
           | NetworkError => RespondFailed
           end
       end.

(** The branch for the two font hosts: [cached || fetch(...)] starts the
    fetch only when no entry was found. *)
Definition cache_first (req : Request) : SW Outcome :=
  cached ← caches_match req;
  match cached with
  | Some c => mret (Responded c)
  | None =>
      fetched ← fetch req;
      match fetched with
      | Fetched response =>
          store_clone req response;;
          mret (Responded response)
      | NetworkError => mret RespondFailed
      end
  end.

(** The last branch: [fetch(...).catch(() => caches.match(...))]. *)
Definition network_first (req : Request) : SW Outcome :=
  fetched ← fetch req;
  match fetched with
  | Fetched response => mret (Responded response)
  | NetworkError =>
      cached ← caches_match req;
      mret match cached with
           | Some c => Responded c
           | None => RespondFailed
           end
  end.

(** The fetch listener. *)
Definition fetch_listener (req : Request) : SW Outcome :=
  let url := url req in
  if includes (pathname url) "/stream" ||
     startsWith (pathname url) "/admin" ||
     includes (pathname url) "/state" ||
     includes (pathname url) "/command" ||
     includes (pathname url) "/manifest.json"
  then mret NotIntercepted
  else if startsWith (pathname url) "/static/"
  then stale_while_revalidate req
  else if bool_decide (hostname url = "fonts.googleapis.com") ||
          bool_decide (hostname url = "fonts.gstatic.com")
  then cache_first req
  else network_first req.

End Worker.

(** ** Route classes *)

Inductive RouteClass :=
  | Excluded
  | ShellAsset
  | CrossOriginCacheable
  | Dynamic.

#[global] Instance RouteClass_eq_dec : EqDecision RouteClass.
Proof. solve_decision. Defined.

(** The branch of the fetch listener that a URL selects. *)
Definition classify (url : URL) : RouteClass :=
  if includes (pathname url) "/stream" ||
     startsWith (pathname url) "/admin" ||
     includes (pathname url) "/state" ||
     includes (pathname url) "/command" ||
     includes (pathname url) "/manifest.json"
  then Excluded
  else if startsWith (pathname url) "/static/"
  then ShellAsset
  else if bool_decide (hostname url = "fonts.googleapis.com") ||
          bool_decide (hostname url = "fonts.gstatic.com")
  then CrossOriginCacheable
  else Dynamic.

(** The strategy of a class, for the worker of version [v]. *)
Definition strategy (v : string) (c : RouteClass) (req : Request) : SW Outcome :=
  match c with
  | Excluded => mret NotIntercepted
  | ShellAsset => stale_while_revalidate v req
  | CrossOriginCacheable => cache_first v req
  | Dynamic => network_first req
  end.

(** The rule set in the words of the specification: an ordered sequence of
    predicates over the URL, each with its class; the first predicate that
    holds decides, and [dynamic] is the class when none does. *)
Definition live_endpoint (u : URL) : bool := includes (pathname u) "/stream".
Definition admin_surface (u : URL) : bool := startsWith (pathname u) "/admin".
Definition state_endpoint (u : URL) : bool := includes (pathname u) "/state".
Definition command_endpoint (u : URL) : bool := includes (pathname u) "/command".
Definition manifest (u : URL) : bool := includes (pathname u) "/manifest.json".
Definition under_static_prefix (u : URL) : bool := startsWith (pathname u) "/static/".
Definition allow_listed_host (u : URL) : bool :=
  bool_decide (hostname u ∈ ["fonts.googleapis.com"; "fonts.gstatic.com"]).

Definition rule_set : list ((URL -> bool) * RouteClass) :=
  [ (live_endpoint, Excluded);
    (admin_surface, Excluded);
    (state_endpoint, Excluded);
    (command_endpoint, Excluded);
    (manifest, Excluded);
    (under_static_prefix, ShellAsset);
    (allow_listed_host, CrossOriginCacheable) ].

Fixpoint first_match (rules : list ((URL -> bool) * RouteClass))
    (u : URL) : RouteClass :=
  match rules with
  | [] => Dynamic
  | (p, c) :: rules' => if p u then c else first_match rules' u
  end.

(** ** The life cycle of the worker

    The origin's registration: the version of the active worker, which
    controls the pages, and that of a worker that is installed and waits to
    be activated, if any, and the stores. *)
Record Registration := mkRegistration {
  active : option string;
  waiting : option string;
  caches : CacheStorage
}.

(** A script of version [v] is deployed and the browser runs its install
    listener.  When the promise given to [waitUntil] is rejected the new
    worker is discarded and the registration is left as it is.  Otherwise
    the worker is installed; if the listener has called [skipWaiting()] it
    does not wait for the pages of the old worker to close: it is activated
    at once, its activate listener runs and it becomes the active worker. *)
Definition deploy (v : string) (location : URL) (net : Network)
    (reg : Registration) : Registration * list Op :=
  let '(installed, cs1, t1) := install_listener v location net (caches reg) in
  if installed : bool then
    if bool_decide (OpSkipWaiting ∈ t1) then
      let '(_, cs2, t2) := activate_listener v net cs1 in
      (mkRegistration (Some v) None cs2, t1 ++ t2)
    else (mkRegistration (active reg) (Some v) cs1, t1)
  else (mkRegistration (active reg) (waiting reg) cs1, t1).

(** A page of the origin makes a request: the fetch listener of the active
    worker runs (the worker has claimed the pages when it was activated);
    with no active worker the browser handles the request. *)
Definition handle_fetch (req : Request) (net : Network) (reg : Registration)
    : Outcome * Registration * list Op :=
  match active reg with
  | Some v =>
      let '(o, cs, t) := fetch_listener v req net (caches reg) in
      (o, mkRegistration (Some v) (waiting reg) cs, t)
  | None => (NotIntercepted, reg, [])
  end.


(** A store of another name than [v] holds an entry for the request. *)
Definition stale_entry (v : string) (req : Request) (cs : CacheStorage) : bool :=
  existsb (fun nc => negb (bool_decide (nc.1 = v)) &&
                     bool_decide (is_Some (cache_match nc.2 req))) cs.

(** The stores of [cs] without those of another name than [v]. *)
Definition only_store (v : string) (cs : CacheStorage) : CacheStorage :=
  filter (fun nc => nc.1 = v) cs.


(** The fetch that [cache.addAll] makes for the request fails: it is
    rejected, or its response is not accepted. *)
Definition fetch_fails (net : Network) (req : Request) : bool :=
  match net req with
  | NetworkError => true
  | Fetched r => negb (addAll_accepts r)
  end.

(** No two stores have the same name. *)
Definition well_formed (cs : CacheStorage) : Prop := NoDup (keys cs).

(** ** Requests and networks used in the examples *)

Definition origin : URL := mkURL "https:" "hapass.local" "" "/sw.js" "".

Definition GET (host path : string) : Request :=
  mkRequest "GET" (mkURL "https:" host "" path "").

Definition offline : Network := fun _ => NetworkError.

Definition serving (r : Response) : Network := fun _ => Fetched r.

Definition css : Request := GET "hapass.local" "/static/dist.css".
Definition stream : Request := GET "hapass.local" "/g/porch/stream".
Definition shell_page : Request := GET "hapass.local" "/g/porch".
Definition app_js : Request := GET "hapass.local" "/static/app.js".
Definition state_js : Request := GET "hapass.local" "/static/state.js".
Definition streaming_png : Request := GET "hapass.local" "/static/streaming.png".

Definition cached_page : Response := mkResponse 200 false "<html>porch</html>".
Definition old_css : Response := mkResponse 200 false "body{color:red}".
Definition new_css : Response := mkResponse 200 false "body{color:blue}".
Definition not_found : Response := mkResponse 404 false "Not Found".
Definition unavailable : Response := mkResponse 503 false "Service Unavailable".

(** Example stores: generation [v1] alone; a stale [v1] beside the active
    [v2], with other bytes of the stylesheet or the same; an empty stale
    [v1]; a stale [v1] that holds a page. *)
Definition v1_only : CacheStorage := [("v1", {[url css := old_css]})].
Definition old_v1_beside_v2 : CacheStorage :=
  [("v1", {[url css := old_css]}); ("v2", {[url css := old_css]})].
Definition page_in_v1 : CacheStorage :=
  [("v1", {[url shell_page := cached_page]})].
Definition v1_active : Registration := mkRegistration (Some "v1") None v1_only.

(** ** A fetch in flight

    [fetch] returns a promise at once and settles it later.  In between
    the then-callback of [caches.match] has returned, and the promise given
    to [respondWith] is resolved with what it returned.  The state of the
    stale-while-revalidate branch at that time, before the fetch has
    settled (it may never settle), and what runs when it settles. *)

(** What [cached || fetchPromise] evaluates to: the cached response when
    there is one, which resolves the promise of [respondWith] at once; else
    the promise of the fetch, on which it then waits. *)
Inductive Returned :=
  | CachedResponse (cached : Response)
  | FetchPromise.

Definition cached_or_fetchPromise (cached : option Response) : Returned :=
  match cached with
  | Some c => CachedResponse c
  | None => FetchPromise
  end.

Record InFlight := mkInFlight {
  returned : Returned;
  stores_in_flight : CacheStorage;
  log_in_flight : list Op
}.

(** The branch up to the return of the callback: [caches.match] has
    answered and the fetch is started.  The network is no argument: its
    answer is not there yet. *)
Definition stale_while_revalidate_started (req : Request) (cs : CacheStorage)
    : InFlight :=
  let cached := match_all cs req in
  mkInFlight (cached_or_fetchPromise cached) cs [OpMatch req; OpFetch req].

(** What the page has received while the fetch is in flight: the response,
    if the promise of [respondWith] is resolved, and nothing if it waits. *)
Definition page_has (f : InFlight) : option Outcome :=
  match returned f with
  | CachedResponse c => Some (Responded c)
  | FetchPromise => None
  end.

(** The fetch settles: its then-callback puts the clone of a response in
    the store of the version [v], and [fetchPromise] settles to the response
    or is rejected, which a page that waits on it then receives. *)
Definition stale_while_revalidate_settled (v : string) (req : Request)
    (f : InFlight) (fetched : FetchResult) : Outcome * CacheStorage * list Op :=
  let '(_, cs, t) :=
    match fetched with
    | Fetched response => store_clone v req response
    | NetworkError => mret tt
    end (fun _ => fetched) (stores_in_flight f) in
  (match returned f with
   | CachedResponse c => Responded c
   | FetchPromise =>
       match fetched with
       | Fetched response => Responded response
       | NetworkError => RespondFailed
       end
   end, cs, log_in_flight f ++ t).

(** ** Runs of the worker *)

(** Every path of the asset list is fetched with a response that
    [cache.addAll] accepts. *)
Definition assets_served (net : Network) (location : URL) : bool :=
  forallb (fun req => negb (fetch_fails net req))
    (shell_request location <$> SHELL_ASSETS).

(** Every entry of every store is a pair of a URL and a response that [P]
    holds of. *)
Definition all_entries (P : URL -> Response -> Prop) (cs : CacheStorage) : Prop :=
  forall n c u r, (n, c) ∈ cs -> c !! u = Some r -> P u r.

(** What happens to the origin, one thing at a time: a script is deployed,
    or a page makes a request. *)
Inductive Event :=
  | Deploy (v : string) (net : Network)
  | Request_of_page (req : Request) (net : Network).

Definition step (location : URL) (reg : Registration) (e : Event) : Registration :=
  match e with
  | Deploy v net => (deploy v location net reg).1
  | Request_of_page req net => (handle_fetch req net reg).1.2
  end.

Definition run (location : URL) (es : list Event) (reg : Registration)
    : Registration :=
  foldl (step location) reg es.

(** The state of the network at the time of an event. *)
Definition event_net (e : Event) : Network :=
  match e with
  | Deploy _ net => net
  | Request_of_page _ net => net
  end.

(** An origin where no worker was ever installed. *)
Definition unregistered : Registration := mkRegistration None None [].

(** Every store that is not the one of the active generation is empty. *)
Definition other_stores_empty (reg : Registration) : Prop :=
  forall n c, (n, c) ∈ caches reg -> active reg ≠ Some n -> c = ∅.

(** ** The shared utilities (static/util.js) *)

(** [s.replace(/c/g, r)] for a pattern of one character [c]: every
    occurrence of [c] is replaced by [r], from left to right. *)
Fixpoint replace_char (c : Ascii.ascii) (r : string) (s : string) : string :=
  match s with
  | EmptyString => EmptyString
  | String d s' =>
      if Ascii.eqb d c then r +:+ replace_char c r s'
      else String d (replace_char c r s')
  end.

(** [esc(str)]; [None] is [null] or [undefined], which [str ?? ''] turns
    into the empty string. *)
Definition esc (str : option string) : string :=
  replace_char "'"%char "&#39;"
    (replace_char "034"%char "&quot;"
       (replace_char ">"%char "&gt;"
          (replace_char "<"%char "&lt;"
             (replace_char "&"%char "&amp;" (default "" str))))).

(** [cssId(s)] *)
Definition cssId (s : string) : string := replace_char "."%char "-" s.

(** The entity of a character, and the escape that maps each character of a
    string on its own. *)
Definition entity (c : Ascii.ascii) : string :=
  if Ascii.eqb c "&"%char then "&amp;"
  else if Ascii.eqb c "<"%char then "&lt;"
  else if Ascii.eqb c ">"%char then "&gt;"
  else if Ascii.eqb c "034"%char then "&quot;"
  else if Ascii.eqb c "'"%char then "&#39;"
  else String c "".

Fixpoint escape_each (s : string) : string :=
  match s with
  | EmptyString => EmptyString
  | String c s' => entity c +:+ escape_each s'
  end.

(** The string without its entities: what a browser shows for the escaped
    text. *)
Fixpoint unescape (s : string) : string :=
  match s with
  | String "&"%char (String "a"%char (String "m"%char (String "p"%char (String ";"%char s')))) =>
      String "&"%char (unescape s')
  | String "&"%char (String "l"%char (String "t"%char (String ";"%char s'))) =>
      String "<"%char (unescape s')
  | String "&"%char (String "g"%char (String "t"%char (String ";"%char s'))) =>
      String ">"%char (unescape s')
  | String "&"%char (String "q"%char (String "u"%char (String "o"%char (String "t"%char (String ";"%char s'))))) =>
      String "034"%char (unescape s')
  | String "&"%char (String "#"%char (String "3"%char (String "9"%char (String ";"%char s')))) =>
      String "'"%char (unescape s')
  | String c s' => String c (unescape s')
  | EmptyString => EmptyString
  end.

(** ** The focus trap (static/util.js)

    Elements are numbered.  The page: the element that has the focus
    ([document.activeElement], [None] for [null]), the variable
    [_previouslyFocused], and the modals on which [_handleTrapKeydown]
    listens for [keydown]. *)
Record Page := mkPage {
  activeElement : option nat;
  _previouslyFocused : option nat;
  keydown_listeners : list nat
}.

Section FocusTrap.

(** Which elements take the focus when [focus()] is called on them (a
    disabled or hidden element does not). *)
Variable accepts : nat -> bool.

(** [element.focus()] *)
Definition focus (e : nat) (p : Page) : Page :=
  if accepts e then mkPage (Some e) (_previouslyFocused p) (keydown_listeners p)
  else p.

(** [modal.addEventListener('keydown', _handleTrapKeydown)]: a listener that
    is already there is not added again. *)
Definition addEventListener (modal : nat) (p : Page) : Page :=
  mkPage (activeElement p) (_previouslyFocused p)
    (if bool_decide (modal ∈ keydown_listeners p) then keydown_listeners p
     else keydown_listeners p ++ [modal]).

(** [trapFocus(modal)]; [focusable] is what
    [modal.querySelectorAll(_FOCUSABLE_SELECTOR)] gives. *)
Definition trapFocus (modal : nat) (focusable : list nat) (p : Page) : Page :=
  let p := mkPage (activeElement p) (activeElement p) (keydown_listeners p) in
  match focusable with
  | [] => p
  | first :: _ => addEventListener modal (focus first p)
  end.

(** [_handleTrapKeydown(e)] with [e.key], [e.shiftKey] and what
    [this.querySelectorAll(_FOCUSABLE_SELECTOR)] gives; the result tells
    whether [e.preventDefault()] was called. *)
Definition _handleTrapKeydown (key : string) (shiftKey : bool)
    (focusable : list nat) (p : Page) : Page * bool :=
  if negb (String.eqb key "Tab") then (p, false)
  else
    match focusable with
    | [] => (p, false)
    | first :: _ =>
        let last := default first (last focusable) in
        if shiftKey && bool_decide (activeElement p = Some first)
        then (focus last p, true)
        else if negb shiftKey && bool_decide (activeElement p = Some last)
        then (focus first p, true)
        else (p, false)
    end.

(** [releaseFocus()] *)
Definition releaseFocus (p : Page) : Page :=
  let p :=
    match _previouslyFocused p with
    | Some e => focus e p
    | None => p
    end in
  mkPage (activeElement p) None (keydown_listeners p).

End FocusTrap.

(** The element after the first occurrence of [a] in [l]. *)
Fixpoint next_of (a : nat) (l : list nat) : option nat :=
  match l with
  | [] => None
  | x :: l' => if decide (x = a) then head l' else next_of a l'
  end.

(** What the browser does with a Tab that was not prevented, when the
    focusable elements of the modal are in tab order: the focus moves to the
    next of them, or to the previous one with Shift, and leaves them at
    either end ([None] then stands for an element outside). *)
Definition browser_tab (shiftKey : bool) (focusable : list nat) (p : Page) : Page :=
  mkPage (a ← activeElement p;
          next_of a (if shiftKey then reverse focusable else focusable))
    (_previouslyFocused p) (keydown_listeners p).

(** A key is pressed in a modal with the listener. *)
Definition key_down (accepts : nat -> bool) (focusable : list nat) (p : Page)
    (k : string * bool) : Page :=
  let '(p', prevented) := _handleTrapKeydown accepts k.1 k.2 focusable p in
  if prevented then p'
  else if String.eqb k.1 "Tab" then browser_tab k.2 focusable p' else p'.

(** * Properties *)

(** ** The string tests *)

Lemma append_cons c (p t : string) : String c p +:+ t = String c (p +:+ t).
Proof. reflexivity. Qed.

Lemma append_nil (t : string) : "" +:+ t = t.
Proof. reflexivity. Qed.

Lemma startsWith_spec (s p : string) :
  startsWith s p = true <-> exists t, s = p +:+ t.
Proof.
  revert s. induction p as [|c p IH]; intros s; simpl.
  - split; [intros _; exists s; reflexivity | reflexivity].
  - destruct s as [|d s].
    + split; [discriminate | intros [t Ht]; discriminate].
    + destruct (Ascii.eqb d c) eqn:E.
      * apply Ascii.eqb_eq in E. subst d. rewrite IH.
        split; intros [t Ht]; exists t; rewrite append_cons in *; congruence.
      * split; [discriminate |].
        intros [t Ht]. rewrite append_cons in Ht. injection Ht as -> _.
        rewrite Ascii.eqb_refl in E. discriminate.
Qed.

Lemma includes_spec (s p : string) :
  includes s p = true <-> exists a b, s = a +:+ p +:+ b.
Proof.
  induction s as [|d s IH]; simpl.
  - rewrite orb_false_r, startsWith_spec. split.
    + intros [t Ht]. exists EmptyString, t. exact Ht.
    + intros [a [b H]]. destruct a; [eauto | discriminate].
  - rewrite orb_true_iff, IH, startsWith_spec. split.
    + intros [[t Ht] | [a [b H]]].
      * exists EmptyString, t. exact Ht.
      * exists (String d a), b. rewrite append_cons. congruence.
    + intros [a [b H]]. destruct a as [|e a].
      * left. eauto.
      * right. exists a, b. rewrite append_cons in H. congruence.
Qed.

(** ** The stores *)

Lemma store_app name (cs1 cs2 : CacheStorage) :
  store name (cs1 ++ cs2) =
  match store name cs1 with Some c => Some c | None => store name cs2 end.
Proof.
  induction cs1 as [|[n c] cs1 IH]; simpl; [reflexivity |].
  destruct (decide (n = name)); [reflexivity | exact IH].
Qed.

Lemma store_None_keys name (cs : CacheStorage) :
  store name cs = None <-> name ∉ keys cs.
Proof.
  unfold keys. induction cs as [|[n c] cs IH]; simpl.
  - split; [intros _; apply not_elem_of_nil | reflexivity].
  - rewrite not_elem_of_cons. destruct (decide (n = name)) as [->|Hne].
    + split; [discriminate | intros [H _]; congruence].
    + rewrite IH. split; [intros H; split; [congruence | exact H] | tauto].
Qed.

Lemma store_open_same name (cs : CacheStorage) :
  store name (open name cs) = Some (default ∅ (store name cs)).
Proof.
  unfold open. destruct (store name cs) as [c|] eqn:E; simpl.
  - exact E.
  - rewrite store_app, E. simpl. rewrite decide_True; reflexivity.
Qed.

Lemma store_open_other name n (cs : CacheStorage) :
  n ≠ name -> store n (open name cs) = store n cs.
Proof.
  intros Hne. unfold open. destruct (store name cs); [reflexivity |].
  rewrite store_app. simpl. rewrite decide_False by congruence.
  destruct (store n cs); reflexivity.
Qed.

Lemma store_update_same name f (cs : CacheStorage) :
  store name (update_store name f cs) = f <$> store name cs.
Proof.
  induction cs as [|[n c] cs IH]; simpl; [reflexivity |].
  destruct (decide (n = name)) as [->|Hne]; simpl.
  - rewrite decide_True; reflexivity.
  - rewrite decide_False by exact Hne. exact IH.
Qed.

Lemma store_update_other name n f (cs : CacheStorage) :
  n ≠ name -> store n (update_store name f cs) = store n cs.
Proof.
  intros Hne. induction cs as [|[m c] cs IH]; simpl; [reflexivity |].
  destruct (decide (m = name)) as [->|Hm]; simpl.
  - rewrite !decide_False by congruence. reflexivity.
  - destruct (decide (m = n)); [reflexivity | exact IH].
Qed.

Lemma store_put_other name n req r (cs : CacheStorage) :
  n ≠ name -> store n (put name req r cs) = store n cs.
Proof.
  intros Hne. unfold put. destruct (put_accepts req r); [|reflexivity].
  apply store_update_other, Hne.
Qed.

Lemma keys_update name f (cs : CacheStorage) :
  keys (update_store name f cs) = keys cs.
Proof.
  unfold keys. induction cs as [|[n c] cs IH]; simpl; [reflexivity |].
  destruct (decide (n = name)); simpl; [reflexivity | f_equal; exact IH].
Qed.

Lemma match_all_app (cs1 cs2 : CacheStorage) req :
  match_all (cs1 ++ cs2) req =
  match match_all cs1 req with Some r => Some r | None => match_all cs2 req end.
Proof.
  induction cs1 as [|[n c] cs1 IH]; simpl; [reflexivity |].
  destruct (cache_match c req); [reflexivity | exact IH].
Qed.

Lemma cache_match_empty req : cache_match ∅ req = None.
Proof. unfold cache_match. destruct (decide _); [apply lookup_empty | reflexivity]. Qed.

(** Opening a store does not change what [caches.match] finds. *)
Lemma match_all_open name (cs : CacheStorage) req :
  match_all (open name cs) req = match_all cs req.
Proof.
  unfold open. destruct (store name cs); [reflexivity |].
  rewrite match_all_app. simpl. rewrite cache_match_empty.
  destruct (match_all cs req); reflexivity.
Qed.

Lemma match_source_open name (cs : CacheStorage) req :
  match_source (open name cs) req = match_source cs req.
Proof.
  unfold open. destruct (store name cs); [reflexivity |].
  induction cs as [|[n c] cs IH]; simpl.
  - rewrite cache_match_empty. reflexivity.
  - destruct (cache_match c req); [reflexivity | exact IH].
Qed.

Lemma cache_match_insert_same (c : Cache) req r :
  method req = "GET" -> cache_match (<[url req := r]> c) req = Some r.
Proof.
  intros Hm. unfold cache_match. rewrite decide_True by exact Hm.
  apply lookup_insert_eq.
Qed.

Lemma put_accepts_GET req r : put_accepts req r = true -> method req = "GET".
Proof.
  unfold put_accepts. rewrite !andb_true_iff, bool_decide_eq_true. tauto.
Qed.

(** After an accepted put in the store of [v], [caches.match] finds the new
    response, when no store before that of [v] holds an entry for the
    request. *)
Lemma match_all_put_found v req r (cs : CacheStorage) :
  put_accepts req r = true ->
  match_source cs req = Some v ->
  match_all (put v req r cs) req = Some r.
Proof.
  intros Hacc Hsrc. unfold put. rewrite Hacc.
  pose proof (put_accepts_GET _ _ Hacc) as Hget.
  induction cs as [|[n c] cs IH]; simpl in *; [discriminate |].
  destruct (cache_match c req) as [r0|] eqn:E.
  - injection Hsrc as ->. rewrite decide_True by reflexivity. simpl.
    rewrite cache_match_insert_same by exact Hget. reflexivity.
  - destruct (decide (n = v)) as [->|Hne]; simpl.
    + rewrite cache_match_insert_same by exact Hget. reflexivity.
    + rewrite E. apply IH, Hsrc.
Qed.


(** ** What the strategies compute *)

Section Strategies.

Context (v : string) (req : Request) (net : Network) (cs : CacheStorage).

Lemma stale_while_revalidate_run :
  stale_while_revalidate v req net cs =
  match net req with
  | Fetched response =>
      (match match_all cs req with
       | Some c => Responded c
       | None => Responded response
       end,
       put v req response (open v cs),
       [OpMatch req; OpFetch req; OpOpen v; OpPut v req response])
  | NetworkError =>
      (match match_all cs req with
       | Some c => Responded c
       | None => RespondFailed
       end, cs, [OpMatch req; OpFetch req])
  end.
Proof.
  unfold stale_while_revalidate, store_clone, mbind, SW_bind, mret, SW_ret,
    caches_match, fetch, caches_open, cache_put.
  destruct (net req); reflexivity.
Qed.

Lemma cache_first_run :
  cache_first v req net cs =
  match match_all cs req with
  | Some c => (Responded c, cs, [OpMatch req])
  | None =>
      match net req with
      | Fetched response =>
          (Responded response, put v req response (open v cs),
           [OpMatch req; OpFetch req; OpOpen v; OpPut v req response])
      | NetworkError => (RespondFailed, cs, [OpMatch req; OpFetch req])
      end
  end.
Proof.
  unfold cache_first, store_clone, mbind, SW_bind, mret, SW_ret,
    caches_match, fetch, caches_open, cache_put.
  destruct (match_all cs req); [reflexivity |].
  destruct (net req); reflexivity.
Qed.

Lemma network_first_run :
  network_first req net cs =
  match net req with
  | Fetched response => (Responded response, cs, [OpFetch req])
  | NetworkError =>
      (match match_all cs req with
       | Some c => Responded c
       | None => RespondFailed
       end, cs, [OpFetch req; OpMatch req])
  end.
Proof.
  unfold network_first, mbind, SW_bind, mret, SW_ret, caches_match, fetch.
  destruct (net req); reflexivity.
Qed.

(** The fetch listener runs the strategy of the class of the request. *)
Lemma fetch_listener_strategy :
  fetch_listener v req net cs = strategy v (classify (url req)) req net cs.
Proof.
  unfold fetch_listener, classify, strategy.
  repeat match goal with |- context [if ?b then _ else _] => destruct b end;
    reflexivity.
Qed.

End Strategies.

Lemma allow_listed_host_eq (u : URL) :
  allow_listed_host u =
  bool_decide (hostname u = "fonts.googleapis.com") ||
  bool_decide (hostname u = "fonts.gstatic.com").
Proof.
  unfold allow_listed_host.
  destruct (bool_decide (hostname u = "fonts.googleapis.com")) eqn:E1; simpl.
  - apply bool_decide_eq_true in E1. apply bool_decide_eq_true.
    rewrite E1. apply list_elem_of_here.
  - apply bool_decide_eq_false in E1.
    destruct (bool_decide (hostname u = "fonts.gstatic.com")) eqn:E2.
    + apply bool_decide_eq_true in E2. apply bool_decide_eq_true.
      rewrite E2. apply list_elem_of_further, list_elem_of_here.
    + apply bool_decide_eq_false in E2. apply bool_decide_eq_false.
      rewrite !elem_of_cons, elem_of_nil. tauto.
Qed.

(** ** Route classification *)

(** C2. Classification is a total function of the URL that evaluates the
    rules in their order, the first that holds deciding: excluded for a
    streaming, administrative, state, command or manifest path, else
    shell-asset under the static prefix, else cross-origin-cacheable for an
    allow-listed host, else dynamic.  It is the first match of the ordered
    rule set, each class is characterised by its rule and the failure of
    the rules before it, and the fetch listener runs the strategy of that
    one class. *)
Theorem classify_first_match_wins :
  forall u : URL,
    let excl := live_endpoint u || admin_surface u || state_endpoint u ||
                command_endpoint u || manifest u in
    classify u = first_match rule_set u /\
    (classify u = Excluded <-> excl = true) /\
    (classify u = ShellAsset <->
       excl = false /\ under_static_prefix u = true) /\
    (classify u = CrossOriginCacheable <->
       excl = false /\ under_static_prefix u = false /\
       allow_listed_host u = true) /\
    (classify u = Dynamic <->
       excl = false /\ under_static_prefix u = false /\
       allow_listed_host u = false) /\
    (forall v m net cs,
       fetch_listener v (mkRequest m u) net cs =
       strategy v (classify u) (mkRequest m u) net cs).
Proof.
  intros u excl.
  assert (Hclass : classify u =
    if excl then Excluded
    else if under_static_prefix u then ShellAsset
    else if allow_listed_host u then CrossOriginCacheable else Dynamic).
  { rewrite allow_listed_host_eq. reflexivity. }
  split; [|split; [|split; [|split; [|split]]]].
  - rewrite Hclass. unfold excl, rule_set, first_match.
    destruct (live_endpoint u), (admin_surface u), (state_endpoint u),
      (command_endpoint u), (manifest u); reflexivity.
  - rewrite Hclass. destruct excl, (under_static_prefix u),
      (allow_listed_host u); split; congruence.
  - rewrite Hclass. destruct excl, (under_static_prefix u),
      (allow_listed_host u); split; (congruence || (intros [? ?]; congruence) || tauto).
  - rewrite Hclass. destruct excl, (under_static_prefix u),
      (allow_listed_host u); split;
      (congruence || (intros (? & ? & ?); congruence) || tauto).
  - rewrite Hclass. destruct excl, (under_static_prefix u),
      (allow_listed_host u); split;
      (congruence || (intros (? & ? & ?); congruence) || tauto).
  - intros v m net cs. apply fetch_listener_strategy.
Qed.

(** ** Excluded requests *)

(** C7. For a request classified excluded the controller performs no cache
    read and no cache write: the listener returns without responding, the
    request goes to the network as it is, and the stores (the whole
    registration) are the same after as before. *)
Theorem excluded_not_intercepted (v : string) (req : Request) (net : Network)
    (cs : CacheStorage) (reg : Registration) :
  classify (url req) = Excluded ->
  fetch_listener v req net cs = (NotIntercepted, cs, []) /\
  handle_fetch req net reg = (NotIntercepted, reg, []) /\
  (let '(o, _, t) := handle_fetch req net reg in
   cache_reads t = 0 /\ cache_writes t = 0 /\ fetches t = 0 /\
   client_receives net req o = net req).
Proof.
  intros Hc.
  assert (H : forall v' cs', fetch_listener v' req net cs' = (NotIntercepted, cs', [])).
  { intros v' cs'. rewrite fetch_listener_strategy, Hc. reflexivity. }
  assert (H' : handle_fetch req net reg = (NotIntercepted, reg, [])).
  { unfold handle_fetch. destruct reg as [[a|] w cs0]; simpl; [|reflexivity].
    rewrite H. reflexivity. }
  split; [apply H | split; [exact H' |]].
  rewrite H'. repeat split.
Qed.

Lemma excluded_not_intercepted_witness :
  classify (url stream) = Excluded /\
  fetch_listener "v1" stream offline [("v1", ∅)] =
    (NotIntercepted, [("v1", ∅)], []) /\
  handle_fetch stream offline (mkRegistration (Some "v1") None [("v1", ∅)]) =
    (NotIntercepted, mkRegistration (Some "v1") None [("v1", ∅)], []) /\
  (let '(o, _, t) :=
     handle_fetch stream offline (mkRegistration (Some "v1") None [("v1", ∅)]) in
   cache_reads t = 0 /\ cache_writes t = 0 /\ fetches t = 0 /\
   client_receives offline stream o = offline stream).
Proof.
  split; [reflexivity |].
  apply (excluded_not_intercepted "v1" stream offline [("v1", ∅)]
           (mkRegistration (Some "v1") None [("v1", ∅)])).
  reflexivity.
Defined.

(** C10. The exclusion tests are substring tests made before the test of
    the static prefix: a request whose path is under [/static/] and holds
    one of the excluded substrings (as [/static/state.js] and
    [/static/streaming.png] do) is classified excluded, and the listener
    neither reads nor writes the cache for it. *)
Theorem static_path_with_excluded_substring (v : string) (req : Request)
    (net : Network) (cs : CacheStorage) :
  startsWith (pathname (url req)) "/static/" = true ->
  includes (pathname (url req)) "/stream" = true \/
  includes (pathname (url req)) "/state" = true \/
  includes (pathname (url req)) "/command" = true \/
  includes (pathname (url req)) "/manifest.json" = true ->
  classify (url req) = Excluded /\
  classify (url req) <> ShellAsset /\
  (let '(o, cs', t) := fetch_listener v req net cs in
   o = NotIntercepted /\ cs' = cs /\ cache_reads t = 0 /\ cache_writes t = 0).
Proof.
  intros _ Hsub.
  assert (Hc : classify (url req) = Excluded).
  { unfold classify.
    destruct Hsub as [H | [H | [H | H]]]; rewrite H;
      rewrite ?orb_true_r; reflexivity. }
  split; [exact Hc | split; [congruence |]].
  rewrite fetch_listener_strategy, Hc. simpl. repeat split.
Qed.

Lemma static_path_with_excluded_substring_witness :
  (startsWith (pathname (url state_js)) "/static/" = true /\
   includes (pathname (url state_js)) "/state" = true /\
   classify (url state_js) = Excluded /\
   classify (url state_js) <> ShellAsset /\
   (let '(o, cs', t) := fetch_listener "v1" state_js offline [("v1", ∅)] in
    o = NotIntercepted /\ cs' = [("v1", ∅)] /\
    cache_reads t = 0 /\ cache_writes t = 0)) /\
  (startsWith (pathname (url streaming_png)) "/static/" = true /\
   includes (pathname (url streaming_png)) "/stream" = true /\
   classify (url streaming_png) = Excluded /\
   classify (url streaming_png) <> ShellAsset /\
   (let '(o, cs', t) := fetch_listener "v1" streaming_png offline [("v1", ∅)] in
    o = NotIntercepted /\ cs' = [("v1", ∅)] /\
    cache_reads t = 0 /\ cache_writes t = 0)).
Proof.
  split; (split; [reflexivity | split; [reflexivity |]]).
  - apply (static_path_with_excluded_substring "v1" state_js offline [("v1", ∅)]).
    + reflexivity.
    + right; left; reflexivity.
  - apply (static_path_with_excluded_substring "v1" streaming_png offline
             [("v1", ∅)]).
    + reflexivity.
    + left; reflexivity.
Defined.

(** ** Dynamic requests: network first *)

(** C4. For a request classified dynamic the listener first attempts the
    network fetch.  When the fetch fails it answers with the cached response
    for the request if [caches.match] finds one, and otherwise the failure
    reaches the caller; a fetched response is passed on.  Whether the fetch
    succeeds or fails, the log holds no cache write and the stores are
    unchanged. *)
Theorem network_first_fallback (v : string) (req : Request) (net : Network)
    (cs : CacheStorage) :
  classify (url req) = Dynamic ->
  let '(o, cs', t) := fetch_listener v req net cs in
  head t = Some (OpFetch req) /\
  o = match net req with
      | Fetched response => Responded response
      | NetworkError =>
          match match_all cs req with
          | Some c => Responded c
          | None => RespondFailed
          end
      end /\
  client_receives net req o =
    match net req with
    | Fetched response => Fetched response
    | NetworkError =>
        match match_all cs req with
        | Some c => Fetched c
        | None => NetworkError
        end
    end /\
  cache_writes t = 0 /\ cs' = cs.
Proof.
  intros Hc. rewrite fetch_listener_strategy, Hc. simpl.
  rewrite network_first_run.
  destruct (net req) as [|response] eqn:Hnet.
  - destruct (match_all cs req) as [c|] eqn:Hm; repeat split.
  - repeat split.
Qed.

Lemma network_first_fallback_witness :
  classify (url shell_page) = Dynamic /\
  (let '(o, cs', t) := fetch_listener "v1" shell_page offline [("v1", ∅)] in
   head t = Some (OpFetch shell_page) /\
   o = RespondFailed /\
   client_receives offline shell_page o = NetworkError /\
   cache_writes t = 0 /\ cs' = [("v1", ∅)]).
Proof.
  split; [reflexivity |].
  exact (network_first_fallback "v1" shell_page offline [("v1", ∅)] eq_refl).
Defined.

(** ** Cross-origin requests: cache first *)



(** ** Responses with a non-success status *)

Lemma store_put_same v req r (cs : CacheStorage) :
  put_accepts req r = true ->
  store v (put v req r (open v cs)) =
  Some (<[url req := r]> (default ∅ (store v cs))).
Proof.
  intros Hacc. unfold put. rewrite Hacc, store_update_same, store_open_same.
  reflexivity.
Qed.

Lemma put_accepts_not_ok req r :
  method req = "GET" -> ok r = false -> vary_star r = false ->
  put_accepts req r = true.
Proof.
  intros Hm Hok Hv. unfold put_accepts.
  rewrite bool_decide_eq_true_2 by exact Hm. rewrite Hv. simpl.
  destruct (status r =? 206)%nat eqn:E; [|reflexivity].
  apply Nat.eqb_eq in E. unfold ok in Hok. rewrite E in Hok. discriminate.
Qed.

(** C5, as the code has it.  A response of a non-success status is a
    response like any other, not a failed fetch.  The dynamic strategy
    returns it to the caller and does not consult the cache; the
    stale-while-revalidate strategy, and the cache-first strategy on a miss,
    put it in the store of the active generation (for a GET request and a
    response without [Vary: *]).  Only a rejected fetch makes the dynamic
    strategy fall back to the cache, and leaves the stores unwritten in the
    two other strategies. *)
Theorem non_success_response_is_a_response (v : string) (req : Request)
    (net down : Network) (cs : CacheStorage) (r : Response) :
  net req = Fetched r ->
  ok r = false ->
  method req = "GET" ->
  vary_star r = false ->
  down req = NetworkError ->
  (network_first req net cs = (Responded r, cs, [OpFetch req]) /\
   store v (stale_while_revalidate v req net cs).1.2 =
     Some (<[url req := r]> (default ∅ (store v cs))) /\
   store v (cache_first v req net cs).1.2 =
     match match_all cs req with
     | Some _ => store v cs
     | None => Some (<[url req := r]> (default ∅ (store v cs)))
     end) /\
  ((network_first req down cs).1.1 =
     match match_all cs req with
     | Some c => Responded c
     | None => RespondFailed
     end /\
   (stale_while_revalidate v req down cs).1.2 = cs /\
   (cache_first v req down cs).1.2 = cs).
Proof.
  intros Hnet Hok Hm Hv Hdown.
  pose proof (put_accepts_not_ok req r Hm Hok Hv) as Hacc.
  rewrite !network_first_run, !stale_while_revalidate_run, !cache_first_run.
  rewrite Hnet, Hdown. simpl. repeat split.
  - apply store_put_same, Hacc.
  - destruct (match_all cs req); simpl; [reflexivity |].
    apply store_put_same, Hacc.
  - destruct (match_all cs req); reflexivity.
Qed.

Lemma non_success_response_is_a_response_witness :
  serving not_found css = Fetched not_found /\
  ok not_found = false /\
  method css = "GET" /\
  vary_star not_found = false /\
  offline css = NetworkError /\
  (network_first css (serving not_found) [("v1", ∅)] =
     (Responded not_found, [("v1", ∅)], [OpFetch css]) /\
   store "v1" (stale_while_revalidate "v1" css (serving not_found) [("v1", ∅)]).1.2 =
     Some (<[url css := not_found]> (default ∅ (store "v1" [("v1", ∅)]))) /\
   store "v1" (cache_first "v1" css (serving not_found) [("v1", ∅)]).1.2 =
     match match_all [("v1", ∅)] css with
     | Some _ => store "v1" [("v1", ∅)]
     | None => Some (<[url css := not_found]> (default ∅ (store "v1" [("v1", ∅)])))
     end) /\
  ((network_first css offline [("v1", ∅)]).1.1 =
     match match_all [("v1", ∅)] css with
     | Some c => Responded c
     | None => RespondFailed
     end /\
   (stale_while_revalidate "v1" css offline [("v1", ∅)]).1.2 = [("v1", ∅)] /\
   (cache_first "v1" css offline [("v1", ∅)]).1.2 = [("v1", ∅)]).
Proof.
  repeat (split; [reflexivity |]).
  apply (non_success_response_is_a_response "v1" css (serving not_found) offline
           [("v1", ∅)] not_found); reflexivity.
Defined.

(** C5 as written fails.  A 404 answer to the revalidation of a cached
    shell asset is written over the entry, and the next request is served
    the 404 from the cache; a 503 answer to a dynamic request is returned
    although the cache holds a response for the request. *)
Lemma non_success_response_is_stored_and_returned :
  ok not_found = false /\
  classify (url css) = ShellAsset /\
  match_all v1_only css = Some old_css /\
  match_all (fetch_listener "v1" css (serving not_found) v1_only).1.2 css =
    Some not_found /\
  (fetch_listener "v1" css offline
     (fetch_listener "v1" css (serving not_found) v1_only).1.2).1.1 =
    Responded not_found /\
  ok unavailable = false /\
  classify (url shell_page) = Dynamic /\
  match_all page_in_v1 shell_page = Some cached_page /\
  (fetch_listener "v1" shell_page (serving unavailable) page_in_v1).1.1 =
    Responded unavailable.
Proof. vm_compute. repeat split. Qed.

(** ** Shell assets: stale while revalidate *)

(** The response of the listener depends on the stores only through what
    [caches.match] finds for the request. *)
Lemma outcome_match_all v req net (cs1 cs2 : CacheStorage) :
  match_all cs1 req = match_all cs2 req ->
  (fetch_listener v req net cs1).1.1 = (fetch_listener v req net cs2).1.1.
Proof.
  intros H. rewrite !fetch_listener_strategy.
  destruct (classify (url req)); simpl.
  - reflexivity.
  - rewrite !stale_while_revalidate_run, H. destruct (net req); reflexivity.
  - rewrite !cache_first_run, H.
    destruct (match_all cs2 req); [reflexivity |].
    destruct (net req); reflexivity.
  - rewrite !network_first_run, H. destruct (net req); reflexivity.
Qed.

(** The listener run to the end is the listener started, then settled
    with the answer of the network. *)
Lemma stale_while_revalidate_in_two_steps v req net (cs : CacheStorage) :
  stale_while_revalidate_settled v req (stale_while_revalidate_started req cs)
    (net req) =
  stale_while_revalidate v req net cs.
Proof.
  rewrite stale_while_revalidate_run.
  unfold stale_while_revalidate_settled, stale_while_revalidate_started,
    cached_or_fetchPromise, store_clone, mbind, SW_bind, mret, SW_ret,
    caches_open, cache_put.
  cbn [returned stores_in_flight log_in_flight].
  destruct (net req), (match_all cs req); reflexivity.
Qed.

(** C3, as the code has it.  For a shell-asset request with a cached entry,
    the response is the cached one and the page has it while the
    revalidation fetch, started concurrently, is still in flight: it is
    returned without waiting on the fetch, whatever the fetch then gives;
    the stores are not written before the fetch settles.  Without an entry
    the page has nothing while the fetch is in flight: it waits on the fetch
    and receives what the network gives.  When the entry that
    [caches.match] finds is in the store of the active generation, then
    after a revalidation whose response [cache.put] stores, [caches.match]
    finds the fresh response and a later request for the resource returns
    it. *)
Theorem stale_while_revalidate_converges (v : string) (req : Request)
    (net : Network) (cs : CacheStorage) (cached fresh : Response) :
  classify (url req) = ShellAsset ->
  match_all cs req = Some cached ->
  match_source cs req = Some v ->
  net req = Fetched fresh ->
  put_accepts req fresh = true ->
  (page_has (stale_while_revalidate_started req cs) = Some (Responded cached) /\
   forall cs0 net0,
     page_has (stale_while_revalidate_started req cs0) =
       Responded <$> match_all cs0 req /\
     log_in_flight (stale_while_revalidate_started req cs0) =
       [OpMatch req; OpFetch req] /\
     stores_in_flight (stale_while_revalidate_started req cs0) = cs0 /\
     stale_while_revalidate_settled v req
       (stale_while_revalidate_started req cs0) (net0 req) =
     fetch_listener v req net0 cs0) /\
  (forall net0, (fetch_listener v req net0 cs).1.1 = Responded cached) /\
  (forall cs0 net0,
     client_receives net0 req (fetch_listener v req net0 cs0).1.1 =
     match match_all cs0 req with
     | Some c => Fetched c
     | None => net0 req
     end) /\
  (let '(o, cs1, t) := fetch_listener v req net cs in
   o = Responded cached /\
   t = [OpMatch req; OpFetch req; OpOpen v; OpPut v req fresh] /\
   match_all cs1 req = Some fresh /\
   forall net', (fetch_listener v req net' cs1).1.1 = Responded fresh).
Proof.
  intros Hc Hm Hsrc Hnet Hacc.
  assert (Hrun : forall net0 cs0,
    fetch_listener v req net0 cs0 = stale_while_revalidate v req net0 cs0).
  { intros. rewrite fetch_listener_strategy, Hc. reflexivity. }
  split; [|split; [|split]].
  - split.
    + unfold page_has, stale_while_revalidate_started. cbn [returned].
      rewrite Hm. reflexivity.
    + intros cs0 net0. split; [| split; [reflexivity | split; [reflexivity |]]].
      * unfold page_has, stale_while_revalidate_started. cbn [returned].
        destruct (match_all cs0 req); reflexivity.
      * rewrite Hrun. apply stale_while_revalidate_in_two_steps.
  - intros net0. rewrite Hrun, stale_while_revalidate_run, Hm.
    destruct (net0 req); reflexivity.
  - intros cs0 net0. rewrite Hrun, stale_while_revalidate_run.
    destruct (net0 req) as [|r0] eqn:E, (match_all cs0 req); simpl;
      congruence.
  - rewrite Hrun, stale_while_revalidate_run, Hnet, Hm.
    assert (Hfresh : match_all (put v req fresh (open v cs)) req = Some fresh).
    { apply match_all_put_found; [exact Hacc |].
      rewrite match_source_open. exact Hsrc. }
    split; [reflexivity | split; [reflexivity | split; [exact Hfresh |]]].
    intros net'. rewrite Hrun, stale_while_revalidate_run, Hfresh.
    destruct (net' req); reflexivity.
Qed.

Lemma stale_while_revalidate_converges_witness :
  classify (url css) = ShellAsset /\
  match_all v1_only css = Some old_css /\
  match_source v1_only css = Some "v1" /\
  serving new_css css = Fetched new_css /\
  put_accepts css new_css = true /\
  (page_has (stale_while_revalidate_started css v1_only) =
     Some (Responded old_css) /\
   forall cs0 net0,
     page_has (stale_while_revalidate_started css cs0) =
       Responded <$> match_all cs0 css /\
     log_in_flight (stale_while_revalidate_started css cs0) =
       [OpMatch css; OpFetch css] /\
     stores_in_flight (stale_while_revalidate_started css cs0) = cs0 /\
     stale_while_revalidate_settled "v1" css
       (stale_while_revalidate_started css cs0) (net0 css) =
     fetch_listener "v1" css net0 cs0) /\
  (forall net0, (fetch_listener "v1" css net0 v1_only).1.1 = Responded old_css) /\
  (forall cs0 net0,
     client_receives net0 css (fetch_listener "v1" css net0 cs0).1.1 =
     match match_all cs0 css with
     | Some c => Fetched c
     | None => net0 css
     end) /\
  (let '(o, cs1, t) := fetch_listener "v1" css (serving new_css) v1_only in
   o = Responded old_css /\
   t = [OpMatch css; OpFetch css; OpOpen "v1"; OpPut "v1" css new_css] /\
   match_all cs1 css = Some new_css /\
   forall net', (fetch_listener "v1" css net' cs1).1.1 = Responded new_css).
Proof.
  split; [reflexivity |].
  split; [vm_compute; reflexivity |].
  split; [vm_compute; reflexivity |].
  split; [reflexivity |].
  split; [reflexivity |].
  apply (stale_while_revalidate_converges "v1" css (serving new_css)
           v1_only old_css new_css).
  - reflexivity.
  - vm_compute; reflexivity.
  - vm_compute; reflexivity.
  - reflexivity.
  - reflexivity.
Defined.

(** C3 as written fails when a store created before that of the active
    generation holds an entry for the asset: the first request returns the
    old bytes of that store, the revalidation writes the new bytes to the
    store of the active generation, and the second request returns the old
    bytes again. *)
Lemma stale_store_hides_revalidation :
  classify (url css) = ShellAsset /\
  match_all old_v1_beside_v2 css = Some old_css /\
  serving new_css css = Fetched new_css /\
  ok new_css = true /\
  put_accepts css new_css = true /\
  (fetch_listener "v2" css (serving new_css) old_v1_beside_v2).1.1 =
    Responded old_css /\
  store "v2" (fetch_listener "v2" css (serving new_css) old_v1_beside_v2).1.2
    ≫= (.!! url css) = Some new_css /\
  (fetch_listener "v2" css (serving new_css)
     (fetch_listener "v2" css (serving new_css) old_v1_beside_v2).1.2).1.1 =
    Responded old_css /\
  old_css <> new_css.
Proof. vm_compute. repeat split. discriminate. Qed.

(** ** Which store is read and written *)







(** A stale store needs no failed deletion.  The put of a revalidation that
    the worker of [v1] started before [v2] was activated, and that settles
    after the activation, opens a store [v1] again beside that of [v2]; the
    worker of [v2] then answers a request for that asset from the store of
    [v1]. *)
Lemma stale_store_reopened :
  keys (caches (deploy "v2" origin (serving new_css) v1_active).1) = ["v2"] /\
  keys (store_clone "v1" app_js old_css offline
          (caches (deploy "v2" origin (serving new_css) v1_active).1)).1.2 =
    ["v2"; "v1"] /\
  match_source
    (store_clone "v1" app_js old_css offline
       (caches (deploy "v2" origin (serving new_css) v1_active).1)).1.2 app_js =
    Some "v1" /\
  (fetch_listener "v2" app_js offline
     (store_clone "v1" app_js old_css offline
        (caches (deploy "v2" origin (serving new_css) v1_active).1)).1.2).1.1 =
    Responded old_css.
Proof. vm_compute. repeat split. Qed.

(** ** The life cycle of a generation *)

Lemma install_listener_run v location net (cs : CacheStorage) :
  install_listener v location net cs =
  match fetch_all (shell_request location <$> SHELL_ASSETS) net with
  | Some entries =>
      (true, update_store v (put_entries entries) (open v cs),
       OpOpen v :: OpSkipWaiting ::
       (OpFetch <$> (shell_request location <$> SHELL_ASSETS)) ++
       [OpAddAll v (shell_request location <$> SHELL_ASSETS)])
  | None =>
      (false, open v cs,
       OpOpen v :: OpSkipWaiting ::
       (OpFetch <$> (shell_request location <$> SHELL_ASSETS)))
  end.
Proof.
  unfold install_listener, mbind, SW_bind, caches_open, skipWaiting, cache_addAll.
  destruct (fetch_all _ net); reflexivity.
Qed.

Lemma fetch_all_fails (reqs : list Request) net req :
  req ∈ reqs -> fetch_fails net req = true -> fetch_all reqs net = None.
Proof.
  unfold fetch_fails, fetch_all. intros Hin Hfail.
  induction Hin as [req reqs | req req' reqs Hin IH]; simpl.
  - destruct (net req) as [|r]; [reflexivity |].
    apply negb_true_iff in Hfail. rewrite Hfail. reflexivity.
  - rewrite (IH Hfail). destruct (net req') as [|r]; [reflexivity |].
    destruct (addAll_accepts r); reflexivity.
Qed.

Lemma mapM_delete_run (ks : list string) net (cs : CacheStorage) :
  mapM caches_delete ks net cs =
  (const tt <$> ks, foldl (fun cs k => delete_store k cs) cs ks, OpDelete <$> ks).
Proof.
  revert cs. induction ks as [|k ks IH]; intros cs; [reflexivity |].
  change (mapM caches_delete (k :: ks)) with
    (y ← caches_delete k; l ← mapM caches_delete ks; mret (y :: l)).
  unfold mbind, SW_bind at 1 2. unfold caches_delete at 1.
  rewrite IH. simpl. rewrite app_nil_r. reflexivity.
Qed.

Lemma foldl_delete_store (ks : list string) (cs : CacheStorage) :
  foldl (fun cs k => delete_store k cs) cs ks = filter (fun nc => nc.1 ∉ ks) cs.
Proof.
  revert cs. induction ks as [|k ks IH]; intros cs; simpl.
  - induction cs as [|nc cs IHcs]; [reflexivity |].
    rewrite filter_cons_True by apply not_elem_of_nil. f_equal. exact IHcs.
  - rewrite IH. unfold delete_store. rewrite list_filter_filter.
    apply list_filter_iff. intros nc. rewrite not_elem_of_cons. tauto.
Qed.

Lemma activate_listener_run v net (cs : CacheStorage) :
  activate_listener v net cs =
  (tt, only_store v cs,
   OpKeys :: OpClaim :: (OpDelete <$> filter (fun k => k ≠ v) (keys cs))).
Proof.
  unfold activate_listener, mbind, SW_bind at 1 2 3.
  unfold caches_keys at 1. unfold clients_claim at 1.
  rewrite mapM_delete_run, foldl_delete_store. simpl. rewrite app_nil_r.
  f_equal. f_equal. unfold only_store.
  assert (H : forall K : list string, keys cs ⊆ K ->
    filter (fun nc : string * Cache => nc.1 ∉ filter (fun k => k ≠ v) K) cs =
    filter (fun nc => nc.1 = v) cs); [| apply H; reflexivity].
  intros K. unfold keys. induction cs as [|[n c] cs IH]; intros HK; [reflexivity |].
  assert (Hn : n ∈ K) by (apply HK; simpl; apply list_elem_of_here).
  assert (Hcs : cs.*1 ⊆ K).
  { intros x Hx. apply HK. simpl. apply list_elem_of_further, Hx. }
  destruct (decide (n = v)) as [->|Hne].
  - rewrite !filter_cons_True; [f_equal; apply IH, Hcs | reflexivity |].
    simpl. rewrite list_elem_of_filter. tauto.
  - rewrite !filter_cons_False; [apply IH, Hcs | exact Hne |].
    simpl. intros H. apply H. rewrite list_elem_of_filter. tauto.
Qed.

Lemma store_only_store v n (cs : CacheStorage) :
  store n (only_store v cs) = if decide (n = v) then store v cs else None.
Proof.
  unfold only_store. induction cs as [|[m c] cs IH]; simpl.
  - destruct (decide (n = v)); reflexivity.
  - destruct (decide (m = v)) as [->|Hm].
    + rewrite filter_cons_True by reflexivity. simpl.
      destruct (decide (v = n)) as [<-|Hn].
      * rewrite decide_True by reflexivity. reflexivity.
      * rewrite IH. destruct (decide (n = v)); congruence.
    + rewrite filter_cons_False by exact Hm. rewrite IH.
      destruct (decide (n = v)); [reflexivity | reflexivity].
Qed.

Lemma only_store_absent v (cs : CacheStorage) :
  v ∉ keys cs -> only_store v cs = [].
Proof.
  unfold only_store, keys. induction cs as [|[n c] cs IH]; [reflexivity |].
  simpl. rewrite not_elem_of_cons. intros [Hne Hrest].
  rewrite filter_cons_False by (simpl; congruence). apply IH, Hrest.
Qed.

(** With unique names, the store of [v] is all that activation leaves. *)
Lemma only_store_sole v c (cs : CacheStorage) :
  well_formed cs -> store v cs = Some c -> only_store v cs = [(v, c)].
Proof.
  unfold well_formed, keys. induction cs as [|[n c0] cs IH]; simpl; [discriminate |].
  rewrite NoDup_cons. intros [Hn Hnd] Hs.
  destruct (decide (n = v)) as [->|Hne].
  - injection Hs as ->. unfold only_store. rewrite filter_cons_True by reflexivity.
    f_equal. apply only_store_absent, Hn.
  - unfold only_store. rewrite filter_cons_False by exact Hne. apply IH; assumption.
Qed.

Lemma well_formed_open v (cs : CacheStorage) :
  well_formed cs -> well_formed (open v cs).
Proof.
  unfold well_formed, open. intros Hwf.
  destruct (store v cs) eqn:E; [exact Hwf |].
  apply store_None_keys in E. unfold keys in *. rewrite fmap_app. simpl.
  apply NoDup_app. split; [exact Hwf | split; [| apply NoDup_singleton]].
  intros x Hx. rewrite list_elem_of_singleton. congruence.
Qed.

Lemma well_formed_update v f (cs : CacheStorage) :
  well_formed cs -> well_formed (update_store v f cs).
Proof. unfold well_formed. rewrite keys_update. trivial. Qed.

(** C9. Activation deletes every store whose name is not that of the new
    active generation and leaves that generation's store as it is, for any
    stores: what remains is the stores of that name.  Installing [v2] while
    [v1] is active leaves the store of [v1] unmodified, whether the install
    succeeds or not; after the install the store of [v2] exists, the
    activation that follows a successful install leaves it as the sole
    store, and a failed install leaves [v1] active with its store. *)
Theorem activate_leaves_sole_store (v1 v2 : string) (location : URL)
    (net : Network) (cs : CacheStorage) (c1 : Cache) :
  v1 ≠ v2 ->
  well_formed cs ->
  store v1 cs = Some c1 ->
  (forall v net0 cs0,
     (activate_listener v net0 cs0).1.2 = only_store v cs0 /\
     (forall n, n ≠ v -> store n (only_store v cs0) = None) /\
     store v (only_store v cs0) = store v cs0) /\
  (let '(installed, cs1, _) := install_listener v2 location net cs in
   store v1 cs1 = Some c1 /\
   exists c2,
     store v2 cs1 = Some c2 /\
     (activate_listener v2 net cs1).1.2 = [(v2, c2)] /\
     (deploy v2 location net (mkRegistration (Some v1) None cs)).1 =
       if installed then mkRegistration (Some v2) None [(v2, c2)]
       else mkRegistration (Some v1) None cs1).
Proof.
  intros Hne Hwf Hs1. split.
  - intros v net0 cs0. rewrite activate_listener_run. simpl.
    split; [reflexivity | split].
    + intros n Hn. rewrite store_only_store, decide_False by exact Hn. reflexivity.
    + rewrite store_only_store, decide_True by reflexivity. reflexivity.
  - unfold deploy. cbn [caches active waiting]. rewrite install_listener_run.
    destruct (fetch_all (shell_request location <$> SHELL_ASSETS) net)
      as [entries|]; cbn iota beta zeta;
      rewrite ?(bool_decide_eq_true_2 (OpSkipWaiting ∈ _))
        by apply list_elem_of_further, list_elem_of_here.
    + split.
      * rewrite store_update_other, store_open_other by exact Hne. exact Hs1.
      * exists (put_entries entries (default ∅ (store v2 cs))).
        assert (Hs2 : store v2 (update_store v2 (put_entries entries) (open v2 cs)) =
                      Some (put_entries entries (default ∅ (store v2 cs)))).
        { rewrite store_update_same, store_open_same. reflexivity. }
        assert (Hsole : only_store v2 (update_store v2 (put_entries entries) (open v2 cs)) =
                        [(v2, put_entries entries (default ∅ (store v2 cs)))]).
        { apply only_store_sole; [| exact Hs2].
          apply well_formed_update, well_formed_open, Hwf. }
        rewrite activate_listener_run. simpl. rewrite Hsole.
        split; [exact Hs2 | split; reflexivity].
    + split.
      * rewrite store_open_other by exact Hne. exact Hs1.
      * exists (default ∅ (store v2 cs)).
        rewrite activate_listener_run. simpl.
        split; [apply store_open_same | split; [| reflexivity]].
        apply only_store_sole; [apply well_formed_open, Hwf | apply store_open_same].
Qed.

Lemma activate_leaves_sole_store_witness :
  "v1" ≠ "v2" /\
  well_formed v1_only /\
  store "v1" v1_only = Some {[url css := old_css]} /\
  (let '(installed, cs1, _) := install_listener "v2" origin offline v1_only in
   store "v1" cs1 = Some {[url css := old_css]} /\
   exists c2,
     store "v2" cs1 = Some c2 /\
     (activate_listener "v2" offline cs1).1.2 = [("v2", c2)] /\
     (deploy "v2" origin offline (mkRegistration (Some "v1") None v1_only)).1 =
       if installed then mkRegistration (Some "v2") None [("v2", c2)]
       else mkRegistration (Some "v1") None cs1).
Proof.
  assert (Hne : "v1" ≠ "v2") by discriminate.
  assert (Hwf : well_formed v1_only).
  { apply (bool_decide_unpack _). vm_compute. exact I. }
  assert (Hs : store "v1" v1_only = Some {[url css := old_css]}) by reflexivity.
  split; [exact Hne | split; [exact Hwf | split; [exact Hs |]]].
  apply (activate_leaves_sole_store "v1" "v2" origin offline v1_only
           {[url css := old_css]} Hne Hwf Hs).
Defined.

(** C1, as the code has it.  When the fetch of a shell asset fails during
    the install of a new generation, the install fails as a whole: nothing
    is put in any store and nothing is deleted, the stores of other names
    (that of the previous generation among them) are untouched, the active
    generation stays active and answers every request as before.  The store
    named for the new generation is the one thing that stays: [caches.open]
    has created it, empty, if it was not there. *)
Theorem failed_install_keeps_previous (v : string) (location : URL)
    (net : Network) (reg : Registration) (path : string) :
  path ∈ SHELL_ASSETS ->
  fetch_fails net (shell_request location path) = true ->
  let '(reg', t) := deploy v location net reg in
  active reg' = active reg /\
  waiting reg' = waiting reg /\
  caches reg' = open v (caches reg) /\
  t = OpOpen v :: OpSkipWaiting ::
      (OpFetch <$> (shell_request location <$> SHELL_ASSETS)) /\
  (forall n, n ≠ v -> store n (caches reg') = store n (caches reg)) /\
  store v (caches reg') = Some (default ∅ (store v (caches reg))) /\
  (forall req, match_all (caches reg') req = match_all (caches reg) req) /\
  (forall req net',
     (handle_fetch req net' reg').1.1 = (handle_fetch req net' reg).1.1).
Proof.
  intros Hin Hfail. unfold deploy. rewrite install_listener_run.
  rewrite (fetch_all_fails _ net (shell_request location path)); [| | exact Hfail].
  2: { apply list_elem_of_fmap_2, Hin. }
  cbn iota beta zeta. cbn [caches active waiting]. repeat split.
  - intros n Hn. apply store_open_other, Hn.
  - apply store_open_same.
  - intros req. apply match_all_open.
  - intros req net'. unfold handle_fetch. simpl.
    destruct (active reg) as [a|]; [| reflexivity].
    pose proof (outcome_match_all a req net' (open v (caches reg)) (caches reg)
                  (match_all_open _ _ _)) as H.
    destruct (fetch_listener a req net' (open v (caches reg))) as [[o1 s1] t1].
    destruct (fetch_listener a req net' (caches reg)) as [[o2 s2] t2].
    exact H.
Qed.

Lemma failed_install_keeps_previous_witness :
  "/static/dist.css" ∈ SHELL_ASSETS /\
  fetch_fails offline (shell_request origin "/static/dist.css") = true /\
  (let '(reg', t) := deploy "v2" origin offline v1_active in
   active reg' = active v1_active /\
   waiting reg' = waiting v1_active /\
   caches reg' = open "v2" (caches v1_active) /\
   t = OpOpen "v2" :: OpSkipWaiting ::
       (OpFetch <$> (shell_request origin <$> SHELL_ASSETS)) /\
   (forall n, n ≠ "v2" -> store n (caches reg') = store n (caches v1_active)) /\
   store "v2" (caches reg') = Some (default ∅ (store "v2" (caches v1_active))) /\
   (forall req, match_all (caches reg') req = match_all (caches v1_active) req) /\
   (forall req net',
      (handle_fetch req net' reg').1.1 = (handle_fetch req net' v1_active).1.1)).
Proof.
  assert (Hin : "/static/dist.css" ∈ SHELL_ASSETS) by apply list_elem_of_here.
  split; [exact Hin | split; [reflexivity |]].
  apply (failed_install_keeps_previous "v2" origin offline v1_active
           "/static/dist.css" Hin).
  reflexivity.
Defined.

(** C1 as written fails in one point: the store of the new generation
    persists.  With [v1] active and the network down, the install of [v2]
    fails, [v1] stays active, and the stores are then [v1] and an empty
    [v2] that was not there before. *)
Lemma failed_install_leaves_new_store :
  fetch_fails offline (shell_request origin "/static/dist.css") = true /\
  (install_listener "v2" origin offline (caches v1_active)).1.1 = false /\
  store "v2" (caches v1_active) = None /\
  store "v2" (caches (deploy "v2" origin offline v1_active).1) = Some ∅ /\
  keys (caches (deploy "v2" origin offline v1_active).1) = ["v1"; "v2"] /\
  active (deploy "v2" origin offline v1_active).1 = Some "v1".
Proof. repeat split; reflexivity. Qed.

(** * Further properties of the worker *)

(** ** What a successful install stores *)

Lemma fetch_all_served (reqs : list Request) net :
  forallb (fun req => negb (fetch_fails net req)) reqs = true ->
  exists entries,
    fetch_all reqs net = Some entries /\
    Forall2 (fun req e => e.1 = req /\ net req = Fetched e.2) reqs entries.
Proof.
  unfold fetch_all, fetch_fails.
  induction reqs as [|req reqs IH]; simpl.
  - intros _. exists []. split; [reflexivity | constructor].
  - rewrite andb_true_iff. intros [Hreq Hrest].
    destruct (IH Hrest) as (entries & Hall & Hf).
    destruct (net req) as [|r] eqn:Hnet; [discriminate |].
    apply negb_true_iff, negb_false_iff in Hreq. rewrite Hreq. simpl.
    rewrite Hall. simpl. exists ((req, r) :: entries).
    split; [reflexivity |]. constructor; [split; [reflexivity | exact Hnet] | exact Hf].
Qed.

Lemma put_entries_snoc entries e (c : Cache) :
  put_entries (entries ++ [e]) c = <[url e.1 := e.2]> (put_entries entries c).
Proof. unfold put_entries. rewrite foldl_app. reflexivity. Qed.

(** An entry of another URL than those written is left as it is. *)
Lemma put_entries_other entries (c : Cache) u :
  (forall e, e ∈ entries -> url e.1 ≠ u) ->
  put_entries entries c !! u = c !! u.
Proof.
  induction entries as [|e entries IH] using rev_ind; intros H; [reflexivity |].
  rewrite put_entries_snoc, lookup_insert_ne.
  - apply IH. intros e' He'. apply H, elem_of_app. left. exact He'.
  - apply H, elem_of_app. right. apply list_elem_of_here.
Qed.

(** What is read at a written URL does not depend on the store written to. *)
Lemma put_entries_written entries (c1 c2 : Cache) u :
  (exists e, e ∈ entries /\ url e.1 = u) ->
  put_entries entries c1 !! u = put_entries entries c2 !! u.
Proof.
  induction entries as [|e entries IH] using rev_ind; intros (e0 & Hin & Hu).
  - apply elem_of_nil in Hin. contradiction.
  - rewrite !put_entries_snoc.
    destruct (decide (url e.1 = u)) as [<-|Hne].
    + rewrite !lookup_insert_eq. reflexivity.
    + rewrite !lookup_insert_ne by exact Hne. apply IH.
      apply elem_of_app in Hin as [Hin | Hin]; [eauto |].
      apply list_elem_of_singleton in Hin. subst e0. contradiction.
Qed.

Lemma put_entries_found entries (c : Cache) u r :
  (forall e, e ∈ entries -> url e.1 = u -> e.2 = r) ->
  (exists e, e ∈ entries /\ url e.1 = u) ->
  put_entries entries c !! u = Some r.
Proof.
  induction entries as [|e entries IH] using rev_ind; intros Hall (e0 & Hin & Hu).
  - apply elem_of_nil in Hin. contradiction.
  - rewrite put_entries_snoc.
    destruct (decide (url e.1 = u)) as [He|Hne].
    + rewrite <- He, lookup_insert_eq. f_equal. apply Hall; [| exact He].
      apply elem_of_app. right. apply list_elem_of_here.
    + rewrite lookup_insert_ne by exact Hne. apply IH.
      * intros e' He'. apply Hall, elem_of_app. left. exact He'.
      * apply elem_of_app in Hin as [Hin | Hin]; [eauto |].
        apply list_elem_of_singleton in Hin. subst e0. contradiction.
Qed.

Lemma put_entries_idempotent entries (c : Cache) :
  put_entries entries (put_entries entries c) = put_entries entries c.
Proof.
  apply map_eq. intros u.
  destruct (decide (Exists (fun e => url e.1 = u) entries)) as [Hex|Hno].
  - apply put_entries_written. apply Exists_exists in Hex. exact Hex.
  - rewrite put_entries_other; [reflexivity |].
    intros e He Hu. apply Hno, Exists_exists. eauto.
Qed.

Lemma Forall2_entries (reqs : list Request) net entries :
  Forall2 (fun req e => e.1 = req /\ net req = Fetched e.2) reqs entries ->
  (forall e, e ∈ entries -> e.1 ∈ reqs /\ net e.1 = Fetched e.2) /\
  (forall req, req ∈ reqs -> exists e, e ∈ entries /\ e.1 = req).
Proof.
  induction 1 as [|req e reqs entries [He Hnet] _ [IH1 IH2]].
  - split; intros x Hx; apply elem_of_nil in Hx; contradiction.
  - split.
    + intros e' He'. apply elem_of_cons in He' as [-> | He'].
      * rewrite He. split; [apply list_elem_of_here | exact Hnet].
      * destruct (IH1 e' He') as [? ?]. split; [apply list_elem_of_further |]; assumption.
    + intros req' Hreq'. apply elem_of_cons in Hreq' as [-> | Hreq'].
      * exists e. split; [apply list_elem_of_here | exact He].
      * destruct (IH2 req' Hreq') as (e' & ? & ?). exists e'.
        split; [apply list_elem_of_further |]; assumption.
Qed.

(** The install listener, when every asset is served. *)
Lemma install_listener_served (location : URL) (net : Network) :
  assets_served net location = true ->
  exists entries,
    fetch_all (shell_request location <$> SHELL_ASSETS) net = Some entries /\
    (forall u r,
       u ∈ (fun path => url (shell_request location path)) <$> SHELL_ASSETS ->
       net (mkRequest "GET" u) = Fetched r ->
       forall c, put_entries entries c !! u = Some r) /\
    (forall u,
       u ∉ (fun path => url (shell_request location path)) <$> SHELL_ASSETS ->
       forall c, put_entries entries c !! u = c !! u).
Proof.
  intros Hs. destruct (fetch_all_served _ net Hs) as (entries & Hall & Hf).
  exists entries. split; [exact Hall |].
  destruct (Forall2_entries _ _ _ Hf) as [Hin Hcov].
  assert (Hget : forall e, e ∈ entries -> e.1 = mkRequest "GET" (url e.1)).
  { intros e He. destruct (Hin e He) as [Hreq _].
    apply list_elem_of_fmap in Hreq as (path & -> & _). reflexivity. }
  split.
  - intros u r Hu Hnet c. apply put_entries_found.
    + intros e He Hurl. destruct (Hin e He) as [_ Hne].
      rewrite (Hget e He), Hurl, Hnet in Hne. congruence.
    + apply list_elem_of_fmap in Hu as (path & -> & Hpath).
      destruct (Hcov (shell_request location path)) as (e & He & Heq).
      { apply list_elem_of_fmap_2, Hpath. }
      exists e. split; [exact He | rewrite Heq; reflexivity].
  - intros u Hu c. apply put_entries_other. intros e He Hurl. apply Hu.
    destruct (Hin e He) as [Hreq _].
    apply list_elem_of_fmap in Hreq as (path & Hp & Hpath).
    apply list_elem_of_fmap. exists path. split; [| exact Hpath].
    rewrite <- Hurl, Hp. reflexivity.
Qed.

(** X1. When every shell asset is served, the install succeeds and the
    store of the new version then holds, for each path of the asset list,
    the very response the network gave for it; every other entry of that
    store, and every other store, is as before. *)
Theorem install_populates_store (v : string) (location : URL) (net : Network)
    (cs : CacheStorage) :
  assets_served net location = true ->
  let '(installed, cs1, _) := install_listener v location net cs in
  installed = true /\
  Forall (fun path =>
            Fetched <$> (store v cs1 ≫= (.!! url (shell_request location path))) =
            Some (net (shell_request location path))) SHELL_ASSETS /\
  (forall u,
     u ∉ (fun path => url (shell_request location path)) <$> SHELL_ASSETS ->
     store v cs1 ≫= (.!! u) = store v cs ≫= (.!! u)) /\
  (forall n, n ≠ v -> store n cs1 = store n cs).
Proof.
  intros Hs.
  destruct (install_listener_served location net Hs)
    as (entries & Hall & Hfound & Hother).
  rewrite install_listener_run, Hall.
  assert (Hst : store v (update_store v (put_entries entries) (open v cs)) =
                Some (put_entries entries (default ∅ (store v cs)))).
  { rewrite store_update_same, store_open_same. reflexivity. }
  split; [reflexivity | split; [| split]].
  - apply Forall_forall. intros path Hpath. rewrite Hst. simpl.
    assert (Hserved : fetch_fails net (shell_request location path) = false).
    { unfold assets_served in Hs. apply negb_true_iff.
      apply (proj1 (forallb_forall _ _) Hs).
      apply list_elem_of_In, list_elem_of_fmap_2, Hpath. }
    unfold fetch_fails in Hserved.
    destruct (net (shell_request location path)) as [|r] eqn:Hnet; [discriminate |].
    rewrite (Hfound _ r); [reflexivity | | exact Hnet].
    apply (list_elem_of_fmap_2 (fun path => url (shell_request location path))), Hpath.
  - intros u Hu. rewrite Hst. simpl. rewrite Hother by exact Hu.
    destruct (store v cs); [reflexivity | apply lookup_empty].
  - intros n Hn. rewrite store_update_other, store_open_other by exact Hn.
    reflexivity.
Qed.

Lemma install_populates_store_witness :
  assets_served (serving new_css) origin = true /\
  (let '(installed, cs1, _) := install_listener "v2" origin (serving new_css) v1_only in
   installed = true /\
   Forall (fun path =>
             Fetched <$> (store "v2" cs1 ≫= (.!! url (shell_request origin path))) =
             Some (serving new_css (shell_request origin path))) SHELL_ASSETS /\
   (forall u,
      u ∉ (fun path => url (shell_request origin path)) <$> SHELL_ASSETS ->
      store "v2" cs1 ≫= (.!! u) = store "v2" v1_only ≫= (.!! u)) /\
   (forall n, n ≠ "v2" -> store n cs1 = store n v1_only)).
Proof.
  split; [reflexivity |].
  apply (install_populates_store "v2" origin (serving new_css) v1_only).
  reflexivity.
Defined.

(** ** The offline shell *)

Lemma shell_asset_class (location : URL) (path : string) :
  path ∈ SHELL_ASSETS -> classify (url (shell_request location path)) = ShellAsset.
Proof.
  unfold SHELL_ASSETS. intros H.
  repeat (apply elem_of_cons in H as [-> | H]; [reflexivity |]).
  apply elem_of_nil in H. contradiction.
Qed.

Lemma match_all_only_store_found v req r c (cs : CacheStorage) :
  store v cs = Some c -> cache_match c req = Some r ->
  match_all (only_store v cs) req = Some r.
Proof.
  unfold only_store. intros Hs Hm.
  induction cs as [|[n c0] cs IH]; simpl in Hs; [discriminate |].
  destruct (decide (n = v)) as [->|Hne].
  - injection Hs as ->. rewrite filter_cons_True by reflexivity. simpl.
    rewrite Hm. reflexivity.
  - rewrite filter_cons_False by exact Hne. apply IH, Hs.
Qed.

(** A deploy whose install succeeds: the listener has called
    [skipWaiting], so the activate listener runs on the stores the install
    left. *)
Lemma deploy_installed v location net reg entries :
  fetch_all (shell_request location <$> SHELL_ASSETS) net = Some entries ->
  (deploy v location net reg).1 =
  mkRegistration (Some v) None
    (only_store v (update_store v (put_entries entries) (open v (caches reg)))).
Proof.
  intros Hall. unfold deploy. rewrite install_listener_run, Hall.
  cbn iota beta zeta.
  rewrite (bool_decide_eq_true_2 (OpSkipWaiting ∈ _))
    by apply list_elem_of_further, list_elem_of_here.
  rewrite activate_listener_run. reflexivity.
Qed.

Lemma deploy_installed_sole v location net reg entries :
  well_formed (caches reg) ->
  fetch_all (shell_request location <$> SHELL_ASSETS) net = Some entries ->
  (deploy v location net reg).1 =
  mkRegistration (Some v) None
    [(v, put_entries entries (default ∅ (store v (caches reg))))].
Proof.
  intros Hwf Hall. rewrite (deploy_installed _ _ _ _ entries Hall). f_equal.
  apply only_store_sole.
  - apply well_formed_update, well_formed_open, Hwf.
  - rewrite store_update_same, store_open_same. reflexivity.
Qed.

Lemma fetch_all_not_served (reqs : list Request) net :
  forallb (fun req => negb (fetch_fails net req)) reqs = false ->
  fetch_all reqs net = None.
Proof.
  intros H.
  assert (Hex : exists req, req ∈ reqs /\ fetch_fails net req = true).
  { induction reqs as [|req reqs IH]; simpl in H; [discriminate |].
    apply andb_false_iff in H as [H | H].
    - exists req. split; [apply list_elem_of_here |].
      apply negb_false_iff in H. exact H.
    - destruct (IH H) as (req' & Hin & Hf). exists req'.
      split; [apply list_elem_of_further, Hin | exact Hf]. }
  destruct Hex as (req & Hin & Hf). exact (fetch_all_fails reqs net req Hin Hf).
Qed.

Lemma deploy_failed v location net reg :
  fetch_all (shell_request location <$> SHELL_ASSETS) net = None ->
  (deploy v location net reg).1 =
  mkRegistration (active reg) (waiting reg) (open v (caches reg)).
Proof.
  intros Hall. unfold deploy. rewrite install_listener_run, Hall. reflexivity.
Qed.

Lemma open_open v (cs : CacheStorage) : open v (open v cs) = open v cs.
Proof.
  unfold open at 1. rewrite store_open_same. reflexivity.
Qed.

(** X2. After a deploy in which every shell asset was served, the new
    version is active and a page that requests a shell asset receives the
    response the network gave at install time, whatever the network does
    at the time of the request, be it down. *)
Theorem shell_served_offline (v : string) (location : URL) (net net' : Network)
    (reg : Registration) (path : string) :
  assets_served net location = true ->
  path ∈ SHELL_ASSETS ->
  let '(reg', _) := deploy v location net reg in
  active reg' = Some v /\
  client_receives net' (shell_request location path)
    (handle_fetch (shell_request location path) net' reg').1.1 =
  net (shell_request location path).
Proof.
  intros Hs Hpath.
  destruct (install_listener_served location net Hs) as (entries & Hall & Hfound & _).
  pose proof (deploy_installed v location net reg entries Hall) as Hd.
  destruct (deploy v location net reg) as [reg' t]. simpl in Hd. subst reg'.
  split; [reflexivity |].
  assert (Hserved : fetch_fails net (shell_request location path) = false).
  { unfold assets_served in Hs. apply negb_true_iff.
    apply (proj1 (forallb_forall _ _) Hs).
    apply list_elem_of_In, list_elem_of_fmap_2, Hpath. }
  unfold fetch_fails in Hserved.
  destruct (net (shell_request location path)) as [|r] eqn:Hnet; [discriminate |].
  unfold handle_fetch. cbn [active caches waiting].
  rewrite fetch_listener_strategy, shell_asset_class by exact Hpath.
  cbn [strategy]. rewrite stale_while_revalidate_run.
  rewrite (match_all_only_store_found v _ r
             (put_entries entries (default ∅ (store v (caches reg))))).
  - destruct (net' (shell_request location path)); reflexivity.
  - rewrite store_update_same, store_open_same. reflexivity.
  - unfold cache_match. rewrite decide_True by reflexivity.
    apply Hfound; [| exact Hnet].
    apply (list_elem_of_fmap_2 (fun path => url (shell_request location path))), Hpath.
Qed.

Lemma shell_served_offline_witness :
  assets_served (serving new_css) origin = true /\
  "/static/util.js" ∈ SHELL_ASSETS /\
  (let '(reg', _) := deploy "v1" origin (serving new_css) unregistered in
   active reg' = Some "v1" /\
   client_receives offline (shell_request origin "/static/util.js")
     (handle_fetch (shell_request origin "/static/util.js") offline reg').1.1 =
   serving new_css (shell_request origin "/static/util.js")).
Proof.
  assert (Hin : "/static/util.js" ∈ SHELL_ASSETS).
  { apply (bool_decide_unpack _). vm_compute. exact I. }
  split; [reflexivity | split; [exact Hin |]].
  apply (shell_served_offline "v1" origin (serving new_css) offline unregistered
           "/static/util.js"); [reflexivity | exact Hin].
Defined.

(** X3. A failed install leaves nothing that a later deploy could see:
    deploying a version (the same or another) with every asset served
    gives the same registration after a failed install as without it.  The
    empty store that the failed install left is removed by the activation,
    or is the store the new install fills. *)
Theorem failed_install_leaves_no_trace (v w : string) (location : URL)
    (bad good : Network) (reg : Registration) :
  well_formed (caches reg) ->
  assets_served bad location = false ->
  assets_served good location = true ->
  (deploy w location good (deploy v location bad reg).1).1 =
  (deploy w location good reg).1.
Proof.
  intros Hwf Hbad Hgood.
  destruct (fetch_all_served _ good Hgood) as (entries & Hall & _).
  rewrite (deploy_failed v location bad reg) by apply fetch_all_not_served, Hbad.
  rewrite !(deploy_installed_sole w location good _ entries); try exact Hall.
  - cbn [caches]. do 3 f_equal.
    destruct (decide (w = v)) as [->|Hne].
    + rewrite store_open_same. reflexivity.
    + rewrite store_open_other by exact Hne. reflexivity.
  - exact Hwf.
  - cbn [caches]. apply well_formed_open, Hwf.
Qed.

Lemma failed_install_leaves_no_trace_witness :
  well_formed (caches v1_active) /\
  assets_served offline origin = false /\
  assets_served (serving new_css) origin = true /\
  (deploy "v3" origin (serving new_css) (deploy "v2" origin offline v1_active).1).1 =
  (deploy "v3" origin (serving new_css) v1_active).1.
Proof.
  assert (Hwf : well_formed (caches v1_active)).
  { apply (bool_decide_unpack _). vm_compute. exact I. }
  split; [exact Hwf | split; [reflexivity | split; [reflexivity |]]].
  apply (failed_install_leaves_no_trace "v2" "v3" origin offline (serving new_css)
           v1_active Hwf); reflexivity.
Defined.

(** X4. Deploying the same version again while the network answers as
    before changes nothing, whether the install succeeds or fails. *)
Theorem deploy_idempotent (v : string) (location : URL) (net : Network)
    (reg : Registration) :
  well_formed (caches reg) ->
  (deploy v location net (deploy v location net reg).1).1 =
  (deploy v location net reg).1.
Proof.
  intros Hwf.
  destruct (fetch_all (shell_request location <$> SHELL_ASSETS) net)
    as [entries|] eqn:Hall.
  - rewrite (deploy_installed_sole v location net reg entries Hwf Hall).
    rewrite (deploy_installed_sole v location net _ entries); [| | exact Hall].
    + cbn [caches store]. rewrite decide_True by reflexivity. cbn [from_option id].
      rewrite put_entries_idempotent. reflexivity.
    + cbn [caches]. unfold well_formed, keys. simpl. apply NoDup_singleton.
  - rewrite !(deploy_failed v location net _ Hall). cbn [caches active waiting].
    rewrite open_open. reflexivity.
Qed.

Lemma deploy_idempotent_witness :
  well_formed (caches v1_active) /\
  (deploy "v2" origin (serving new_css)
     (deploy "v2" origin (serving new_css) v1_active).1).1 =
  (deploy "v2" origin (serving new_css) v1_active).1.
Proof.
  assert (Hwf : well_formed (caches v1_active)).
  { apply (bool_decide_unpack _). vm_compute. exact I. }
  split; [exact Hwf |].
  apply (deploy_idempotent "v2" origin (serving new_css) v1_active Hwf).
Defined.

(** ** What the fetch listener does, for every request *)

(** The stores after the listener: as before, or with the fetched response
    put in the store of the version. *)
Lemma listener_stores v req net (cs : CacheStorage) :
  (fetch_listener v req net cs).1.2 = cs \/
  exists r, net req = Fetched r /\
            (fetch_listener v req net cs).1.2 = put v req r (open v cs).
Proof.
  rewrite fetch_listener_strategy. destruct (classify (url req)); simpl.
  - left; reflexivity.
  - rewrite stale_while_revalidate_run.
    destruct (net req) as [|r]; [left; reflexivity | right; eauto].
  - rewrite cache_first_run. destruct (match_all cs req); [left; reflexivity |].
    destruct (net req) as [|r]; [left; reflexivity | right; eauto].
  - rewrite network_first_run. destruct (net req); left; reflexivity.
Qed.

(** X5. With the network down for the request, the listener writes nothing:
    the stores are as before, and a request that is not excluded is answered
    with what [caches.match] finds, or fails when it finds nothing, in each
    of the three strategies. *)
Theorem offline_listener_reads_only (v : string) (req : Request) (net : Network)
    (cs : CacheStorage) :
  net req = NetworkError ->
  let '(o, cs', t) := fetch_listener v req net cs in
  cs' = cs /\ cache_writes t = 0 /\
  o = match classify (url req) with
      | Excluded => NotIntercepted
      | _ => match match_all cs req with
             | Some c => Responded c
             | None => RespondFailed
             end
      end.
Proof.
  intros Hnet. rewrite fetch_listener_strategy.
  destruct (classify (url req)); simpl.
  - repeat split.
  - rewrite stale_while_revalidate_run, Hnet. repeat split.
  - rewrite cache_first_run, Hnet. destruct (match_all cs req); repeat split.
  - rewrite network_first_run, Hnet. repeat split.
Qed.

Lemma offline_listener_reads_only_witness :
  offline css = NetworkError /\
  (let '(o, cs', t) := fetch_listener "v1" css offline v1_only in
   cs' = v1_only /\ cache_writes t = 0 /\
   o = match classify (url css) with
       | Excluded => NotIntercepted
       | _ => match match_all v1_only css with
              | Some c => Responded c
              | None => RespondFailed
              end
       end).
Proof.
  split; [reflexivity |].
  apply (offline_listener_reads_only "v1" css offline v1_only). reflexivity.
Defined.

(** X6. For one request the listener makes at most one network fetch and
    at most one cache read, and every call it makes is about the request it
    was given: it matches and fetches that request only, opens only the
    store of its version and puts there only the response that the network
    gave for that request. *)
Theorem listener_calls_bounded :
  forall (v : string) (req : Request) (net : Network) (cs : CacheStorage),
    let t := (fetch_listener v req net cs).2 in
    fetches t <= 1 /\ cache_reads t <= 1 /\
    Forall (fun o =>
              o = OpMatch req \/ o = OpFetch req \/ o = OpOpen v \/
              exists r, o = OpPut v req r /\ net req = Fetched r) t.
Proof.
  intros v req net cs. cbv zeta. rewrite fetch_listener_strategy.
  assert (Hlog : forall t : list Op,
    (fetches t <= 1 /\ cache_reads t <= 1 /\
     Forall (fun o =>
               o = OpMatch req \/ o = OpFetch req \/ o = OpOpen v \/
               exists r, o = OpPut v req r /\ net req = Fetched r) t) <->
    (length (filter is_fetch t) <= 1 /\ length (filter is_cache_read t) <= 1 /\
     Forall (fun o =>
               o = OpMatch req \/ o = OpFetch req \/ o = OpOpen v \/
               exists r, o = OpPut v req r /\ net req = Fetched r) t)) by reflexivity.
  destruct (classify (url req)); simpl.
  - apply Hlog. simpl. split; [lia | split; [lia | constructor]].
  - rewrite stale_while_revalidate_run.
    destruct (net req) as [|r] eqn:Hnet; apply Hlog; simpl;
      (split; [lia | split; [lia |]]);
      repeat first [apply Forall_nil_2 | apply Forall_cons_2; [eauto 10 |]].
  - rewrite cache_first_run. destruct (match_all cs req).
    + apply Hlog; simpl. split; [lia | split; [lia |]].
      repeat first [apply Forall_nil_2 | apply Forall_cons_2; [eauto 10 |]].
    + destruct (net req) as [|r] eqn:Hnet; apply Hlog; simpl;
        (split; [lia | split; [lia |]]);
        repeat first [apply Forall_nil_2 | apply Forall_cons_2; [eauto 10 |]].
  - rewrite network_first_run.
    destruct (net req) as [|r] eqn:Hnet; apply Hlog; simpl;
      (split; [lia | split; [lia |]]);
      repeat first [apply Forall_nil_2 | apply Forall_cons_2; [eauto 10 |]].
Qed.

(** X7. The listener never makes up a response and never turns an answer
    of the network into a failure: a response it gives is the one the
    network gave for the request or the one [caches.match] found for it; it
    fails only when the fetch failed and no store held an entry; it leaves
    the request to the browser only when the request is excluded. *)
Theorem listener_outcome_sound :
  forall (v : string) (req : Request) (net : Network) (cs : CacheStorage),
    match (fetch_listener v req net cs).1.1 with
    | Responded r => net req = Fetched r \/ match_all cs req = Some r
    | RespondFailed => net req = NetworkError /\ match_all cs req = None
    | NotIntercepted => classify (url req) = Excluded
    end.
Proof.
  intros v req net cs. rewrite fetch_listener_strategy.
  destruct (classify (url req)) eqn:Hc; simpl.
  - reflexivity.
  - rewrite stale_while_revalidate_run.
    destruct (net req) as [|r], (match_all cs req); simpl; auto.
  - rewrite cache_first_run.
    destruct (match_all cs req); simpl; [auto |].
    destruct (net req) as [|r]; simpl; auto.
  - rewrite network_first_run.
    destruct (net req) as [|r]; simpl; [| auto].
    destruct (match_all cs req); simpl; auto.
Qed.

Lemma elem_of_open v n c (cs : CacheStorage) :
  (n, c) ∈ open v cs -> (n, c) ∈ cs \/ (n = v /\ c = ∅).
Proof.
  unfold open. destruct (store v cs); [auto |].
  rewrite elem_of_app, list_elem_of_singleton.
  intros [H | H]; [auto | right; split; congruence].
Qed.

Lemma elem_of_update_store v f n c (cs : CacheStorage) :
  (n, c) ∈ update_store v f cs ->
  (n, c) ∈ cs \/ (n = v /\ exists c0, (v, c0) ∈ cs /\ c = f c0).
Proof.
  induction cs as [|[m c1] cs IH]; simpl; [auto |].
  destruct (decide (m = v)) as [->|Hne]; rewrite !elem_of_cons.
  - intros [H | H]; [| auto]. injection H as -> ->.
    right. split; [reflexivity |]. exists c1. split; [| reflexivity].
    apply list_elem_of_here.
  - intros [H | H]; [auto |]. destruct (IH H) as [? | (-> & c0 & ? & ->)]; [auto |].
    right. split; [reflexivity |]. exists c0. split; [| reflexivity].
    apply list_elem_of_further. assumption.
Qed.

Lemma elem_of_only_store v n c (cs : CacheStorage) :
  (n, c) ∈ only_store v cs <-> n = v /\ (n, c) ∈ cs.
Proof. unfold only_store. rewrite list_elem_of_filter. reflexivity. Qed.

Lemma put_entries_lookup_inv entries (c : Cache) u r :
  put_entries entries c !! u = Some r ->
  (exists e, e ∈ entries /\ url e.1 = u /\ e.2 = r) \/ c !! u = Some r.
Proof.
  induction entries as [|e entries IH] using rev_ind; [auto |].
  rewrite put_entries_snoc. destruct (decide (url e.1 = u)) as [He|Hne].
  - rewrite <- He, lookup_insert_eq. intros [= <-]. left. exists e.
    split; [apply elem_of_app; right; apply list_elem_of_here | auto].
  - rewrite lookup_insert_ne by exact Hne. intros H.
    destruct (IH H) as [(e' & Hin & Hu & Hr) | Hc]; [| auto].
    left. exists e'. split; [apply elem_of_app; left; exact Hin | auto].
Qed.

Lemma all_entries_listener (P : URL -> Response -> Prop) v req net
    (cs : CacheStorage) :
  (forall r, net req = Fetched r -> P (url req) r) ->
  all_entries P cs -> all_entries P (fetch_listener v req net cs).1.2.
Proof.
  intros Hnet Hcs.
  destruct (listener_stores v req net cs) as [-> | (r & Hr & ->)]; [exact Hcs |].
  unfold put. destruct (put_accepts req r).
  - intros n c u r' Hin Hu.
    apply elem_of_update_store in Hin as [Hin | (-> & c0 & Hin & ->)].
    + apply elem_of_open in Hin as [Hin | [-> ->]].
      * exact (Hcs n c u r' Hin Hu).
      * rewrite lookup_empty in Hu. discriminate.
    + destruct (decide (url req = u)) as [<-|Hne].
      * rewrite lookup_insert_eq in Hu. injection Hu as <-. apply Hnet, Hr.
      * rewrite lookup_insert_ne in Hu by exact Hne.
        apply elem_of_open in Hin as [Hin | [_ ->]].
        -- exact (Hcs v c0 u r' Hin Hu).
        -- rewrite lookup_empty in Hu. discriminate.
  - intros n c u r' Hin Hu. apply elem_of_open in Hin as [Hin | [-> ->]].
    + exact (Hcs n c u r' Hin Hu).
    + rewrite lookup_empty in Hu. discriminate.
Qed.

Lemma all_entries_deploy (P : URL -> Response -> Prop) v location net reg :
  (forall req r, net req = Fetched r -> P (url req) r) ->
  all_entries P (caches reg) -> all_entries P (caches (deploy v location net reg).1).
Proof.
  intros Hnet Hcs.
  destruct (fetch_all (shell_request location <$> SHELL_ASSETS) net)
    as [entries|] eqn:Hall.
  - rewrite (deploy_installed v location net reg entries Hall). cbn [caches].
    apply mapM_Some_1 in Hall.
    assert (He : forall e, e ∈ entries -> net e.1 = Fetched e.2).
    { clear -Hall. induction Hall as [|req e reqs entries Hreq _ IH].
      - intros e He. apply elem_of_nil in He. contradiction.
      - intros e' He'. apply elem_of_cons in He' as [-> | He']; [| auto].
        destruct (net req) as [|r] eqn:E; [discriminate |].
        destruct (addAll_accepts r); [| discriminate].
        injection Hreq as <-. exact E. }
    intros n c u r Hin Hu. apply elem_of_only_store in Hin as [-> Hin].
    apply elem_of_update_store in Hin as [Hin | (_ & c0 & Hin & ->)].
    + apply elem_of_open in Hin as [Hin | [_ ->]].
      * exact (Hcs v c u r Hin Hu).
      * rewrite lookup_empty in Hu. discriminate.
    + apply put_entries_lookup_inv in Hu as [(e & Hein & <- & <-) | Hu].
      * apply Hnet, He, Hein.
      * apply elem_of_open in Hin as [Hin | [_ ->]].
        -- exact (Hcs v c0 u r Hin Hu).
        -- rewrite lookup_empty in Hu. discriminate.
  - rewrite (deploy_failed v location net reg Hall). cbn [caches].
    intros n c u r Hin Hu. apply elem_of_open in Hin as [Hin | [-> ->]].
    + exact (Hcs n c u r Hin Hu).
    + rewrite lookup_empty in Hu. discriminate.
Qed.

(** X8. The stores only ever hold what a network served for that very
    URL.  If [P] holds of every response that the networks of a run give,
    with the URL of its request, and of every entry at the start, then it
    holds of every entry of every store at the end of the run, through
    deploys and requests alike. *)
Theorem cache_holds_only_served (P : URL -> Response -> Prop) (location : URL)
    (es : list Event) (reg : Registration) :
  Forall (fun e => forall req r, event_net e req = Fetched r -> P (url req) r) es ->
  all_entries P (caches reg) ->
  all_entries P (caches (run location es reg)).
Proof.
  unfold run. revert reg.
  induction es as [|e es IH]; intros reg Hes Hreg; [exact Hreg |].
  apply Forall_cons in Hes as [He Hes]. simpl. apply IH; [exact Hes |].
  destruct e as [v net | req net]; simpl in *.
  - apply all_entries_deploy; assumption.
  - unfold handle_fetch. destruct (active reg) as [a|]; [| exact Hreg].
    pose proof (all_entries_listener P a req net (caches reg) (He req) Hreg) as H.
    destruct (fetch_listener a req net (caches reg)) as [[o cs'] t]. exact H.
Qed.

Lemma cache_holds_only_served_witness :
  Forall (fun e => forall req r,
            event_net e req = Fetched r -> (fun _ r => r = new_css) (url req) r)
    [Deploy "v1" (serving new_css); Request_of_page css offline] /\
  all_entries (fun _ r => r = new_css) (caches unregistered) /\
  all_entries (fun _ r => r = new_css)
    (caches (run origin [Deploy "v1" (serving new_css); Request_of_page css offline]
               unregistered)).
Proof.
  assert (H1 : Forall (fun e => forall req r,
            event_net e req = Fetched r -> (fun _ r => r = new_css) (url req) r)
    [Deploy "v1" (serving new_css); Request_of_page css offline]).
  { repeat constructor; simpl; unfold serving, offline; congruence. }
  assert (H2 : all_entries (fun _ r => r = new_css) (caches unregistered)).
  { intros n c u r Hin. apply elem_of_nil in Hin. contradiction. }
  split; [exact H1 | split; [exact H2 |]].
  apply (cache_holds_only_served (fun _ r => r = new_css) origin _ unregistered H1 H2).
Defined.

(** X9. The fetch listener never evicts: no store is deleted (the names of
    the stores before are a prefix of those after), and a URL that had an
    entry in a store still has one there afterwards. *)
Theorem listener_never_evicts :
  forall (v : string) (req : Request) (net : Network) (cs : CacheStorage),
    let cs' := (fetch_listener v req net cs).1.2 in
    keys cs `prefix_of` keys cs' /\
    forall n u, is_Some (store n cs ≫= (.!! u)) -> is_Some (store n cs' ≫= (.!! u)).
Proof.
  intros v req net cs. cbv zeta.
  assert (Hopen : keys cs `prefix_of` keys (open v cs)).
  { unfold open, keys. destruct (store v cs); [reflexivity |].
    rewrite fmap_app. apply prefix_app_r. reflexivity. }
  destruct (listener_stores v req net cs) as [-> | (r & _ & ->)].
  - split; [reflexivity | auto].
  - split.
    + unfold put. destruct (put_accepts req r); [rewrite keys_update |]; exact Hopen.
    + intros n u H. destruct (decide (n = v)) as [->|Hne].
      * destruct (store v cs) as [c|] eqn:Hs; simpl in H;
          [| destruct H; discriminate].
        unfold put. destruct (put_accepts req r).
        -- rewrite store_update_same, store_open_same, Hs. simpl.
           destruct (decide (url req = u)) as [<-|Hu].
           ++ rewrite lookup_insert_eq. eexists; reflexivity.
           ++ rewrite lookup_insert_ne by exact Hu. exact H.
        -- rewrite store_open_same, Hs. exact H.
      * rewrite store_put_other, store_open_other by exact Hne. exact H.
Qed.

Lemma match_all_not_GET (cs : CacheStorage) req :
  method req ≠ "GET" -> match_all cs req = None.
Proof.
  intros Hm. induction cs as [|[n c] cs IH]; simpl; [reflexivity |].
  unfold cache_match at 1. rewrite decide_False by exact Hm. exact IH.
Qed.

(** X10. A request that is not a GET is never answered from the cache and
    never written to it: the page receives what the network gives, and
    every store holds the entries it held (at most, the empty store of the
    version is created). *)
Theorem non_GET_passes_through (v : string) (req : Request) (net : Network)
    (cs : CacheStorage) :
  method req ≠ "GET" ->
  let '(o, cs', _) := fetch_listener v req net cs in
  client_receives net req o = net req /\
  (cs' = cs \/ cs' = open v cs) /\
  forall n u, store n cs' ≫= (.!! u) = store n cs ≫= (.!! u).
Proof.
  intros Hm.
  assert (Hput : forall r, put v req r (open v cs) = open v cs).
  { intros r. unfold put, put_accepts.
    rewrite bool_decide_eq_false_2 by exact Hm. reflexivity. }
  assert (Hopen : forall n u, store n (open v cs) ≫= (.!! u) = store n cs ≫= (.!! u)).
  { intros n u. destruct (decide (n = v)) as [->|Hne].
    - rewrite store_open_same. destruct (store v cs); [reflexivity | apply lookup_empty].
    - rewrite store_open_other by exact Hne. reflexivity. }
  pose proof (match_all_not_GET cs req Hm) as Hnone.
  rewrite fetch_listener_strategy. destruct (classify (url req)); simpl.
  - auto.
  - rewrite stale_while_revalidate_run, Hnone.
    destruct (net req) as [|r]; simpl; rewrite ?Hput; auto.
  - rewrite cache_first_run, Hnone.
    destruct (net req) as [|r]; simpl; rewrite ?Hput; auto.
  - rewrite network_first_run, Hnone. destruct (net req) as [|r]; simpl; auto.
Qed.

Lemma non_GET_passes_through_witness :
  method (mkRequest "POST" (url css)) ≠ "GET" /\
  (let '(o, cs', _) :=
     fetch_listener "v1" (mkRequest "POST" (url css)) (serving new_css) v1_only in
   client_receives (serving new_css) (mkRequest "POST" (url css)) o =
     serving new_css (mkRequest "POST" (url css)) /\
   (cs' = v1_only \/ cs' = open "v1" v1_only) /\
   forall n u, store n cs' ≫= (.!! u) = store n v1_only ≫= (.!! u)).
Proof.
  assert (Hm : method (mkRequest "POST" (url css)) ≠ "GET") by discriminate.
  split; [exact Hm |].
  apply (non_GET_passes_through "v1" (mkRequest "POST" (url css)) (serving new_css)
           v1_only Hm).
Defined.



(** ** Runs of deploys and requests *)

Lemma well_formed_listener v req net (cs : CacheStorage) :
  well_formed cs -> well_formed (fetch_listener v req net cs).1.2.
Proof.
  intros Hwf.
  destruct (listener_stores v req net cs) as [-> | (r & _ & ->)]; [exact Hwf |].
  unfold put. destruct (put_accepts req r).
  - apply well_formed_update, well_formed_open, Hwf.
  - apply well_formed_open, Hwf.
Qed.

Lemma stale_entry_empty v req (cs : CacheStorage) :
  (forall n c, (n, c) ∈ cs -> n ≠ v -> c = ∅) -> stale_entry v req cs = false.
Proof.
  unfold stale_entry. induction cs as [|[n c] cs IH]; intros H; [reflexivity |].
  simpl. rewrite IH.
  - rewrite orb_false_r. destruct (decide (n = v)) as [->|Hne].
    + rewrite bool_decide_eq_true_2 by reflexivity. reflexivity.
    + rewrite (H n c (list_elem_of_here _ _) Hne), cache_match_empty.
      rewrite (bool_decide_eq_false_2 (is_Some None)) by (intros [? ?]; discriminate).
      apply andb_false_r.
  - intros n' c' Hin. apply H, list_elem_of_further, Hin.
Qed.

Lemma match_source_active v req r (cs : CacheStorage) :
  stale_entry v req cs = false -> match_all cs req = Some r ->
  match_source cs req = Some v.
Proof.
  unfold stale_entry. induction cs as [|[n c] cs IH]; simpl; [discriminate |].
  rewrite orb_false_iff. intros [Hn Hrest] Hm.
  destruct (cache_match c req) as [r0|]; [| apply IH; assumption].
  destruct (decide (n = v)) as [->|Hne]; [reflexivity |].
  rewrite bool_decide_eq_false_2 in Hn by exact Hne.
  rewrite (bool_decide_eq_true_2 (is_Some (Some r0))) in Hn by (eexists; reflexivity).
  discriminate.
Qed.

Lemma step_keeps_invariant location reg e :
  well_formed (caches reg) -> other_stores_empty reg ->
  well_formed (caches (step location reg e)) /\
  other_stores_empty (step location reg e).
Proof.
  intros Hwf Hemp. destruct e as [v net | req net]; simpl.
  - destruct (fetch_all (shell_request location <$> SHELL_ASSETS) net)
      as [entries|] eqn:Hall.
    + rewrite (deploy_installed_sole v location net reg entries Hwf Hall). split.
      * unfold well_formed, keys. simpl. apply NoDup_singleton.
      * intros n c Hin Hact. simpl in *.
        apply list_elem_of_singleton in Hin. injection Hin as -> _.
        contradiction Hact; reflexivity.
    + rewrite (deploy_failed v location net reg Hall). split.
      * apply well_formed_open, Hwf.
      * intros n c Hin Hact. simpl in *.
        apply elem_of_open in Hin as [Hin | [_ ->]]; [| reflexivity].
        exact (Hemp n c Hin Hact).
  - unfold handle_fetch. destruct (active reg) as [a|] eqn:Ha; [| split; assumption].
    pose proof (well_formed_listener a req net (caches reg) Hwf) as Hwf'.
    pose proof (listener_stores a req net (caches reg)) as Hst.
    destruct (fetch_listener a req net (caches reg)) as [[o cs'] t].
    simpl in *. split; [exact Hwf' |].
    intros n c Hin Hact. simpl in *.
    assert (Hopen : forall n c, (n, c) ∈ open a (caches reg) -> Some a ≠ Some n -> c = ∅).
    { intros n0 c0 H0 Hn0. apply elem_of_open in H0 as [H0 | [_ ->]]; [| reflexivity].
      apply (Hemp n0 c0 H0). rewrite Ha. exact Hn0. }
    destruct Hst as [-> | (r & _ & ->)].
    + apply (Hemp n c Hin). rewrite Ha. exact Hact.
    + unfold put in Hin. destruct (put_accepts req r).
      * apply elem_of_update_store in Hin as [Hin | (-> & _)].
        -- exact (Hopen n c Hin Hact).
        -- contradiction Hact; reflexivity.
      * exact (Hopen n c Hin Hact).
Qed.

(** X12. In a run of deploys and requests handled one at a time, from an
    origin whose stores have distinct names and where only the store of the
    active generation holds entries (as where no worker was ever
    installed), this stays so: a failed install leaves an empty store, an
    activation leaves one store, a request writes to the store of the
    active generation only.  So in every state of such a run no stale store
    holds an entry, and what [caches.match] finds is in the store of the
    active generation. *)
Theorem run_keeps_other_stores_empty (location : URL) (es : list Event)
    (reg : Registration) :
  well_formed (caches reg) ->
  other_stores_empty reg ->
  well_formed (caches (run location es reg)) /\
  other_stores_empty (run location es reg) /\
  forall v req, active (run location es reg) = Some v ->
    stale_entry v req (caches (run location es reg)) = false /\
    forall r, match_all (caches (run location es reg)) req = Some r ->
              match_source (caches (run location es reg)) req = Some v.
Proof.
  unfold run. revert reg.
  induction es as [|e es IH]; intros reg Hwf Hemp; simpl.
  - split; [exact Hwf | split; [exact Hemp |]].
    intros v req Ha.
    assert (Hs : stale_entry v req (caches reg) = false).
    { apply stale_entry_empty. intros n c Hin Hne. apply (Hemp n c Hin).
      rewrite Ha. congruence. }
    split; [exact Hs |]. intros r. apply match_source_active, Hs.
  - destruct (step_keeps_invariant location reg e Hwf Hemp) as [Hwf' Hemp'].
    apply IH; assumption.
Qed.

Lemma run_keeps_other_stores_empty_witness :
  well_formed (caches unregistered) /\
  other_stores_empty unregistered /\
  well_formed (caches (run origin
     [Deploy "v1" (serving old_css); Deploy "v2" offline;
      Request_of_page css (serving new_css)] unregistered)) /\
  other_stores_empty (run origin
     [Deploy "v1" (serving old_css); Deploy "v2" offline;
      Request_of_page css (serving new_css)] unregistered) /\
  forall v req,
    active (run origin
       [Deploy "v1" (serving old_css); Deploy "v2" offline;
        Request_of_page css (serving new_css)] unregistered) = Some v ->
    stale_entry v req (caches (run origin
       [Deploy "v1" (serving old_css); Deploy "v2" offline;
        Request_of_page css (serving new_css)] unregistered)) = false /\
    forall r,
      match_all (caches (run origin
         [Deploy "v1" (serving old_css); Deploy "v2" offline;
          Request_of_page css (serving new_css)] unregistered)) req = Some r ->
      match_source (caches (run origin
         [Deploy "v1" (serving old_css); Deploy "v2" offline;
          Request_of_page css (serving new_css)] unregistered)) req = Some v.
Proof.
  assert (Hwf : well_formed (caches unregistered)) by apply NoDup_nil_2.
  assert (Hemp : other_stores_empty unregistered).
  { intros n c Hin. apply elem_of_nil in Hin. contradiction. }
  split; [exact Hwf | split; [exact Hemp |]].
  apply (run_keeps_other_stores_empty origin _ unregistered Hwf Hemp).
Defined.

(** ** Exclusion, in terms of substrings *)

Lemma classify_excluded_iff (u : URL) :
  classify u = Excluded <->
  includes (pathname u) "/stream" || startsWith (pathname u) "/admin" ||
  includes (pathname u) "/state" || includes (pathname u) "/command" ||
  includes (pathname u) "/manifest.json" = true.
Proof.
  unfold classify.
  destruct (includes (pathname u) "/stream" || startsWith (pathname u) "/admin" ||
            includes (pathname u) "/state" || includes (pathname u) "/command" ||
            includes (pathname u) "/manifest.json").
  - split; reflexivity.
  - split; [| discriminate].
    repeat match goal with |- context [if ?b then _ else _] => destruct b end;
      discriminate.
Qed.

(** X13. A request is left to the browser exactly when its path holds
    [/stream], [/state], [/command] or [/manifest.json] at any position, or
    begins with [/admin]; the host, the query and the method play no part.
    So the state, stream and command routes of every guest page are never
    intercepted. *)
Theorem excluded_iff_substring :
  forall (v : string) (req : Request) (net : Network) (cs : CacheStorage),
    fetch_listener v req net cs = (NotIntercepted, cs, []) <->
    (exists a b s,
       s ∈ ["/stream"; "/state"; "/command"; "/manifest.json"] /\
       pathname (url req) = a +:+ s +:+ b) \/
    (exists b, pathname (url req) = "/admin" +:+ b).
Proof.
  intros v req net cs.
  assert (Hcls : classify (url req) = Excluded <->
    (exists a b s,
       s ∈ ["/stream"; "/state"; "/command"; "/manifest.json"] /\
       pathname (url req) = a +:+ s +:+ b) \/
    (exists b, pathname (url req) = "/admin" +:+ b)).
  { rewrite classify_excluded_iff.
    rewrite !orb_true_iff, !includes_spec, startsWith_spec. split.
    - intros [[[[(a & b & H) | H] | (a & b & H)] | (a & b & H)] | (a & b & H)];
        [left; exists a, b, "/stream" | right; exact H |
         left; exists a, b, "/state" | left; exists a, b, "/command" |
         left; exists a, b, "/manifest.json"];
        (split; [| exact H]); repeat constructor.
    - intros [(a & b & s & Hs & H) | H]; [| eauto].
      repeat (apply elem_of_cons in Hs as [-> | Hs]; [eauto 10 |]).
      apply elem_of_nil in Hs. contradiction. }
  rewrite <- Hcls. split.
  - rewrite fetch_listener_strategy.
    destruct (classify (url req)); simpl; [reflexivity | | |].
    + rewrite stale_while_revalidate_run.
      destruct (net req), (match_all cs req); discriminate.
    + rewrite cache_first_run. destruct (match_all cs req); [discriminate |].
      destruct (net req); discriminate.
    + rewrite network_first_run. destruct (net req); [| discriminate].
      destruct (match_all cs req); discriminate.
  - intros Hc. rewrite fetch_listener_strategy, Hc. reflexivity.
Qed.

(** * The shared utilities *)

Lemma append_assoc (a b c : string) : (a +:+ b) +:+ c = a +:+ (b +:+ c).
Proof.
  induction a as [|d a IH]; [reflexivity |].
  rewrite !append_cons, IH. reflexivity.
Qed.

Lemma append_nil_r (a : string) : a +:+ "" = a.
Proof.
  induction a as [|d a IH]; [reflexivity |]. rewrite append_cons, IH. reflexivity.
Qed.

Lemma length_append (a b : string) :
  String.length (a +:+ b) = String.length a + String.length b.
Proof.
  induction a as [|d a IH]; [reflexivity |]. rewrite append_cons. simpl.
  rewrite IH. reflexivity.
Qed.

Lemma replace_char_cons c r d s :
  replace_char c r (String d s) =
  if Ascii.eqb d c then r +:+ replace_char c r s else String d (replace_char c r s).
Proof. reflexivity. Qed.

Lemma replace_char_app c r (a b : string) :
  replace_char c r (a +:+ b) = replace_char c r a +:+ replace_char c r b.
Proof.
  induction a as [|d a IH]; [reflexivity |].
  rewrite append_cons, !replace_char_cons, IH.
  destruct (Ascii.eqb d c); [rewrite append_assoc |]; reflexivity.
Qed.

Lemma includes_char_cons d s k :
  includes (String d s) (String k "") = Ascii.eqb d k || includes s (String k "").
Proof.
  cbn [includes startsWith]. destruct (Ascii.eqb d k); [| reflexivity].
  destruct s; reflexivity.
Qed.

Lemma includes_char_app (a b : string) k :
  includes (a +:+ b) (String k "") =
  includes a (String k "") || includes b (String k "").
Proof.
  induction a as [|d a IH].
  - rewrite append_nil. destruct b; reflexivity.
  - rewrite append_cons, !includes_char_cons, IH, orb_assoc. reflexivity.
Qed.

(** A string without the character is left as it is. *)
Lemma replace_char_absent c r s :
  includes s (String c "") = false -> replace_char c r s = s.
Proof.
  induction s as [|d s IH]; [reflexivity |].
  rewrite includes_char_cons, orb_false_iff. intros [Hd Hs].
  rewrite replace_char_cons, Hd, IH by exact Hs. reflexivity.
Qed.

Lemma esc_cons c s : esc (Some (String c s)) = entity c +:+ esc (Some s).
Proof.
  unfold esc, entity. cbn [default from_option id].
  rewrite replace_char_cons.
  destruct (Ascii.eqb c "&") eqn:E1.
  { rewrite !replace_char_app. reflexivity. }
  rewrite replace_char_cons.
  destruct (Ascii.eqb c "<") eqn:E2.
  { rewrite !replace_char_app. reflexivity. }
  rewrite replace_char_cons.
  destruct (Ascii.eqb c ">") eqn:E3.
  { rewrite !replace_char_app. reflexivity. }
  rewrite replace_char_cons.
  destruct (Ascii.eqb c "034") eqn:E4.
  { rewrite !replace_char_app. reflexivity. }
  rewrite replace_char_cons.
  destruct (Ascii.eqb c "'") eqn:E5; reflexivity.
Qed.

(** X14. The five replacements of [esc], made one after the other, amount
    to one pass that maps each character on its own: no replacement
    rewrites what an earlier one produced (the ampersand of an entity is
    not escaped again).  So [esc] distributes over concatenation, and
    [null] and [undefined] give the empty string. *)
Theorem esc_one_pass :
  forall s t : string,
    esc (Some s) = escape_each s /\
    esc (Some (s +:+ t)) = esc (Some s) +:+ esc (Some t) /\
    esc None = "" /\ esc (Some "") = "".
Proof.
  assert (H1 : forall s, esc (Some s) = escape_each s).
  { induction s as [|c s IH]; [reflexivity |].
    rewrite esc_cons, IH. reflexivity. }
  intros s t. split; [apply H1 | split; [| split; reflexivity]].
  induction s as [|c s IH]; [reflexivity |].
  rewrite append_cons, !esc_cons, IH, append_assoc. reflexivity.
Qed.

Lemma esc_escape_each s : esc (Some s) = escape_each s.
Proof.
  induction s as [|c s IH]; [reflexivity |]. rewrite esc_cons, IH. reflexivity.
Qed.

Lemma entity_safe c k :
  k = "<"%char \/ k = ">"%char \/ k = "034"%char \/ k = "'"%char ->
  includes (entity c) (String k "") = false.
Proof.
  intros Hk. unfold entity.
  destruct (Ascii.eqb c "&") eqn:E1;
    [destruct Hk as [-> | [-> | [-> | ->]]]; reflexivity |].
  destruct (Ascii.eqb c "<") eqn:E2;
    [destruct Hk as [-> | [-> | [-> | ->]]]; reflexivity |].
  destruct (Ascii.eqb c ">") eqn:E3;
    [destruct Hk as [-> | [-> | [-> | ->]]]; reflexivity |].
  destruct (Ascii.eqb c "034") eqn:E4;
    [destruct Hk as [-> | [-> | [-> | ->]]]; reflexivity |].
  destruct (Ascii.eqb c "'") eqn:E5;
    [destruct Hk as [-> | [-> | [-> | ->]]]; reflexivity |].
  rewrite includes_char_cons.
  destruct Hk as [-> | [-> | [-> | ->]]];
    rewrite ?E2, ?E3, ?E4, ?E5; reflexivity.
Qed.

(** X15. The result of [esc] holds no [<], no [>], no double quote and no
    single quote, whatever the argument: inserted in markup, as text or as
    a quoted attribute value, it cannot open a tag or close the
    attribute. *)
Theorem esc_output_safe :
  forall str : option string,
    includes (esc str) "<" = false /\
    includes (esc str) ">" = false /\
    includes (esc str) (String "034" "") = false /\
    includes (esc str) "'" = false.
Proof.
  assert (H : forall s k,
    k = "<"%char \/ k = ">"%char \/ k = "034"%char \/ k = "'"%char ->
    includes (escape_each s) (String k "") = false).
  { intros s k Hk. induction s as [|c s IH]; [reflexivity |].
    cbn [escape_each]. rewrite includes_char_app, IH, entity_safe by exact Hk.
    reflexivity. }
  intros [s|].
  - rewrite esc_escape_each. repeat split; apply H; auto.
  - repeat split; reflexivity.
Qed.

Lemma unescape_entity c s : unescape (entity c +:+ s) = String c (unescape s).
Proof.
  unfold entity.
  destruct (Ascii.eqb c "&") eqn:E1;
    [apply Ascii.eqb_eq in E1; subst c; reflexivity |].
  destruct (Ascii.eqb c "<") eqn:E2;
    [apply Ascii.eqb_eq in E2; subst c; reflexivity |].
  destruct (Ascii.eqb c ">") eqn:E3;
    [apply Ascii.eqb_eq in E3; subst c; reflexivity |].
  destruct (Ascii.eqb c "034") eqn:E4;
    [apply Ascii.eqb_eq in E4; subst c; reflexivity |].
  destruct (Ascii.eqb c "'") eqn:E5;
    [apply Ascii.eqb_eq in E5; subst c; reflexivity |].
  rewrite append_cons, append_nil.
  destruct c as [[] [] [] [] [] [] [] []]; try reflexivity; discriminate.
Qed.

(** X16. [esc] loses nothing: replacing the five entities of the result by
    their characters gives the argument back, so that two different strings
    never have the same escape. *)
Theorem esc_injective (s t : string) :
  esc (Some s) = esc (Some t) ->
  s = t /\ unescape (esc (Some s)) = s.
Proof.
  assert (H : forall s, unescape (esc (Some s)) = s).
  { intros s0. rewrite esc_escape_each. induction s0 as [|c s0 IH]; [reflexivity |].
    cbn [escape_each]. rewrite unescape_entity, IH. reflexivity. }
  intros Heq. split; [| apply H].
  rewrite <- (H s), <- (H t), Heq. reflexivity.
Qed.

Lemma esc_injective_witness :
  esc (Some "<b>Tom & Jerry</b>") = esc (Some "<b>Tom & Jerry</b>") /\
  "<b>Tom & Jerry</b>" = "<b>Tom & Jerry</b>" /\
  unescape (esc (Some "<b>Tom & Jerry</b>")) = "<b>Tom & Jerry</b>".
Proof.
  split; [reflexivity |].
  apply (esc_injective "<b>Tom & Jerry</b>" "<b>Tom & Jerry</b>"). reflexivity.
Defined.

Lemma escape_each_length s : String.length s <= String.length (escape_each s).
Proof.
  induction s as [|c s IH]; [reflexivity |].
  cbn [escape_each]. rewrite length_append. simpl.
  assert (1 <= String.length (entity c)); [| lia].
  unfold entity.
  repeat match goal with |- context [if ?b then _ else _] => destruct b end;
    simpl; lia.
Qed.

Lemma entity_plain c :
  String.length (entity c) = 1 ->
  entity c = String c "" /\
  Ascii.eqb c "&" = false /\ Ascii.eqb c "<" = false /\ Ascii.eqb c ">" = false /\
  Ascii.eqb c "034" = false /\ Ascii.eqb c "'" = false.
Proof.
  unfold entity.
  destruct (Ascii.eqb c "&"); [discriminate |].
  destruct (Ascii.eqb c "<"); [discriminate |].
  destruct (Ascii.eqb c ">"); [discriminate |].
  destruct (Ascii.eqb c "034"); [discriminate |].
  destruct (Ascii.eqb c "'"); [discriminate |].
  auto 10.
Qed.

(** X17. [esc] returns its argument unchanged exactly when the argument
    holds none of the five characters [&], [<], [>], the double quote and
    the single quote: plain text passes as it is, and every string that
    holds one of them is changed. *)
Theorem esc_unchanged_iff :
  forall s : string,
    esc (Some s) = s <->
    includes s "&" = false /\ includes s "<" = false /\
    includes s ">" = false /\ includes s (String "034" "") = false /\
    includes s "'" = false.
Proof.
  intros s. split.
  - rewrite esc_escape_each. induction s as [|c s IH]; [repeat split |].
    cbn [escape_each]. intros H.
    assert (Hlen : String.length (entity c) = 1 /\
                   String.length (escape_each s) = String.length s).
    { pose proof (f_equal String.length H) as Hl.
      rewrite length_append in Hl. simpl in Hl.
      pose proof (escape_each_length s).
      assert (1 <= String.length (entity c)); [| lia].
      unfold entity.
      repeat match goal with |- context [if ?b then _ else _] => destruct b end;
        simpl; lia. }
    destruct (entity_plain c (proj1 Hlen)) as (He & E1 & E2 & E3 & E4 & E5).
    rewrite He, append_cons, append_nil in H. injection H as H.
    destruct (IH H) as (? & ? & ? & ? & ?).
    rewrite !includes_char_cons, E1, E2, E3, E4, E5. auto.
  - intros (H1 & H2 & H3 & H4 & H5). unfold esc. cbn [default from_option id].
    rewrite (replace_char_absent "&" _ s H1), (replace_char_absent "<" _ s H2),
      (replace_char_absent ">" _ s H3), (replace_char_absent "034" _ s H4),
      (replace_char_absent "'" _ s H5).
    reflexivity.
Qed.

(** ** DOM ids *)

Lemma cssId_cons d s :
  cssId (String d s) = String (if Ascii.eqb d "." then "-"%char else d) (cssId s).
Proof.
  unfold cssId. rewrite replace_char_cons. destruct (Ascii.eqb d "."); reflexivity.
Qed.

(** X18. [cssId] gives a string of the same length with no dot in it,
    leaves a string without dots as it is (so applying it twice is applying
    it once), and distributes over concatenation. *)
Theorem cssId_no_dot :
  forall s t : string,
    includes (cssId s) "." = false /\
    String.length (cssId s) = String.length s /\
    cssId (cssId s) = cssId s /\
    cssId (s +:+ t) = cssId s +:+ cssId t.
Proof.
  assert (Hdot : forall s, includes (cssId s) "." = false).
  { induction s as [|d s IH]; [reflexivity |].
    rewrite cssId_cons, includes_char_cons, IH.
    destruct (Ascii.eqb d ".") eqn:E; [reflexivity |]. rewrite E. reflexivity. }
  intros s t. split; [apply Hdot | split; [| split]].
  - induction s as [|d s IH]; [reflexivity |]. rewrite cssId_cons. simpl.
    rewrite IH. reflexivity.
  - unfold cssId at 1. apply replace_char_absent, Hdot.
  - unfold cssId. rewrite replace_char_app. reflexivity.
Qed.

(** X19. [cssId] maps a dot and a hyphen to the same character, so two ids
    that differ only there get the same DOM id; on ids without a hyphen (as
    the entity ids of Home Assistant are) it is one-to-one. *)
Theorem cssId_collisions (a b s t : string) :
  includes s "-" = false ->
  includes t "-" = false ->
  cssId s = cssId t ->
  cssId (a +:+ "." +:+ b) = cssId (a +:+ "-" +:+ b) /\ s = t.
Proof.
  intros Hs Ht Heq. split.
  - unfold cssId. rewrite !replace_char_app. reflexivity.
  - revert t Ht Heq. induction s as [|d s IH]; intros [|e t] Ht Heq;
      try reflexivity; try (rewrite cssId_cons in Heq; discriminate).
    rewrite !cssId_cons in Heq. injection Heq as Hd Hrest.
    rewrite includes_char_cons, orb_false_iff in Hs, Ht.
    destruct Hs as [Hd1 Hs], Ht as [He1 Ht].
    f_equal; [| apply IH; assumption].
    destruct (Ascii.eqb d ".") eqn:E1, (Ascii.eqb e ".") eqn:E2.
    + apply Ascii.eqb_eq in E1, E2. congruence.
    + subst e. rewrite Ascii.eqb_refl in He1. discriminate.
    + subst d. rewrite Ascii.eqb_refl in Hd1. discriminate.
    + exact Hd.
Qed.

Lemma cssId_collisions_witness :
  includes "light.kitchen_main" "-" = false /\
  cssId "light.kitchen_main" = cssId "light.kitchen_main" /\
  cssId ("sensor" +:+ "." +:+ "a.b") = cssId ("sensor" +:+ "-" +:+ "a.b") /\
  "light.kitchen_main" = "light.kitchen_main".
Proof.
  split; [reflexivity | split; [reflexivity |]].
  apply (cssId_collisions "sensor" "a.b" "light.kitchen_main" "light.kitchen_main");
    reflexivity.
Defined.

(** ** The focus trap *)

Lemma key_down_keeps_previous accepts focusable p k :
  _previouslyFocused (key_down accepts focusable p k) = _previouslyFocused p.
Proof.
  unfold key_down, _handleTrapKeydown, browser_tab, focus.
  destruct k as [key shift]. simpl.
  destruct (String.eqb key "Tab"); simpl; [| reflexivity].
  destruct focusable as [|first rest]; [reflexivity |].
  repeat match goal with
         | |- context [if ?b then _ else _] => destruct b; simpl
         end; reflexivity.
Qed.

(** X20. After [trapFocus], and whatever keys are pressed in the modal,
    [releaseFocus] gives the focus back to the element that had it when the
    modal was opened (if that element still takes the focus) and forgets
    it; this holds also for a modal with nothing focusable in it. *)
Theorem release_restores_focus (accepts : nat -> bool) (modal e : nat)
    (focusable : list nat) (keys : list (string * bool)) (p : Page) :
  activeElement p = Some e ->
  accepts e = true ->
  let p' := releaseFocus accepts
              (foldl (key_down accepts focusable)
                 (trapFocus accepts modal focusable p) keys) in
  activeElement p' = Some e /\ _previouslyFocused p' = None.
Proof.
  intros Ha Hacc. cbv zeta.
  assert (Hprev : forall q,
    _previouslyFocused (foldl (key_down accepts focusable) q keys) =
    _previouslyFocused q).
  { induction keys as [|k keys IH]; intros q; [reflexivity |].
    simpl. rewrite IH. apply key_down_keeps_previous. }
  assert (Htrap : _previouslyFocused (trapFocus accepts modal focusable p) = Some e).
  { unfold trapFocus, addEventListener, focus.
    destruct focusable as [|first rest]; simpl; [exact Ha |].
    destruct (accepts first); simpl; exact Ha. }
  unfold releaseFocus. rewrite Hprev, Htrap. unfold focus. rewrite Hacc.
  split; reflexivity.
Qed.

Lemma release_restores_focus_witness :
  activeElement (mkPage (Some 7) None []) = Some 7 /\
  (fun _ : nat => true) 7 = true /\
  (let p' := releaseFocus (fun _ => true)
               (foldl (key_down (fun _ => true) [1; 2; 3])
                  (trapFocus (fun _ => true) 0 [1; 2; 3] (mkPage (Some 7) None []))
                  [("Tab", false); ("Tab", true); ("Escape", false)]) in
   activeElement p' = Some 7 /\ _previouslyFocused p' = None).
Proof.
  split; [reflexivity | split; [reflexivity |]].
  apply (release_restores_focus (fun _ => true) 0 7 [1; 2; 3]
           [("Tab", false); ("Tab", true); ("Escape", false)]
           (mkPage (Some 7) None [])); reflexivity.
Defined.

Lemma next_of_inside (a : nat) (l : list nat) :
  a ∈ l -> last l ≠ Some a -> exists b, next_of a l = Some b /\ b ∈ l.
Proof.
  induction l as [|x l IH]; intros Hin Hlast.
  - apply elem_of_nil in Hin. contradiction.
  - simpl. destruct (decide (x = a)) as [->|Hne].
    + destruct l as [|y l]; [contradiction Hlast; reflexivity |].
      exists y. split; [reflexivity |].
      apply list_elem_of_further, list_elem_of_here.
    + apply elem_of_cons in Hin as [-> | Hin]; [contradiction Hne; reflexivity |].
      destruct l as [|y l]; [apply elem_of_nil in Hin; contradiction |].
      destruct (IH Hin) as (b & Hb & Hbin); [exact Hlast |].
      exists b. split; [exact Hb | apply list_elem_of_further, Hbin].
Qed.

Lemma tab_inside accepts (focusable : list nat) (shift : bool) (p : Page) (a : nat) :
  forallb accepts focusable = true ->
  a ∈ focusable -> activeElement p = Some a ->
  exists b, b ∈ focusable /\
            activeElement (key_down accepts focusable p ("Tab", shift)) = Some b.
Proof.
  intros Hacc Hin Ha.
  assert (Hall : forall x, x ∈ focusable -> accepts x = true).
  { intros x Hx. apply (proj1 (forallb_forall _ _) Hacc), list_elem_of_In, Hx. }
  destruct focusable as [|first rest]; [apply elem_of_nil in Hin; contradiction |].
  assert (Hfirst : first ∈ first :: rest) by apply list_elem_of_here.
  assert (Hlast : exists l, last (first :: rest) = Some l /\ l ∈ first :: rest).
  { destruct (last (first :: rest)) as [l|] eqn:El.
    - exists l. split; [reflexivity |].
      apply last_Some in El as [l' ->]. apply elem_of_app. right.
      apply list_elem_of_here.
    - apply last_None in El. discriminate. }
  destruct Hlast as (l & El & Hl).
  assert (Hkey : _handleTrapKeydown accepts "Tab" shift (first :: rest) p =
    if shift && bool_decide (Some a = Some first) then (focus accepts l p, true)
    else if negb shift && bool_decide (Some a = Some l) then (focus accepts first p, true)
    else (p, false)).
  { unfold _handleTrapKeydown. rewrite El, Ha. reflexivity. }
  unfold key_down. cbn [fst snd]. rewrite Hkey.
  change (String.eqb "Tab" "Tab") with true.
  destruct shift; cbn [andb negb].
  - destruct (bool_decide (Some a = Some first)) eqn:E.
    + exists l. split; [exact Hl |]. unfold focus. rewrite (Hall l Hl). reflexivity.
    + apply bool_decide_eq_false in E.
      unfold browser_tab. cbn [activeElement]. rewrite Ha. simpl.
      destruct (next_of_inside a (reverse (first :: rest))) as (b & Hb & Hbin).
      * apply elem_of_reverse, Hin.
      * rewrite last_reverse. simpl. congruence.
      * exists b. split; [apply elem_of_reverse, Hbin | exact Hb].
  - destruct (bool_decide (Some a = Some l)) eqn:E.
    + exists first. split; [exact Hfirst |]. unfold focus.
      rewrite (Hall first Hfirst). reflexivity.
    + apply bool_decide_eq_false in E.
      unfold browser_tab. cbn [activeElement]. rewrite Ha. simpl.
      destruct (next_of_inside a (first :: rest)) as (b & Hb & Hbin);
        [exact Hin | rewrite El; congruence |].
      exists b. split; [exact Hbin | exact Hb].
Qed.

(** X21. The trap holds: when the focus is on a focusable element of the
    modal, every such element takes the focus and they are in tab order,
    then after any number of Tab and Shift+Tab the focus is still on one of
    them.  The listener wraps at both ends and leaves the steps between to
    the browser. *)
Theorem tab_stays_in_modal (accepts : nat -> bool) (focusable : list nat)
    (shifts : list bool) (p : Page) (a : nat) :
  forallb accepts focusable = true ->
  a ∈ focusable ->
  activeElement p = Some a ->
  exists b, b ∈ focusable /\
    activeElement (foldl (key_down accepts focusable) p
                     ((fun s => ("Tab", s)) <$> shifts)) = Some b.
Proof.
  intros Hacc. revert p a.
  induction shifts as [|s shifts IH]; intros p a Hin Ha.
  - exists a. split; assumption.
  - simpl. destruct (tab_inside accepts focusable s p a Hacc Hin Ha) as (b & Hb & Hab).
    exact (IH _ b Hb Hab).
Qed.

Lemma tab_stays_in_modal_witness :
  forallb (fun _ : nat => true) [1; 2; 3] = true /\
  3 ∈ [1; 2; 3] /\
  activeElement (mkPage (Some 3) (Some 7) [0]) = Some 3 /\
  exists b, b ∈ [1; 2; 3] /\
    activeElement (foldl (key_down (fun _ => true) [1; 2; 3])
                     (mkPage (Some 3) (Some 7) [0])
                     ((fun s => ("Tab", s)) <$> [false; false; true; true])) = Some b.
Proof.
  assert (Hin : 3 ∈ [1; 2; 3]).
  { apply (bool_decide_unpack _). vm_compute. exact I. }
  split; [reflexivity | split; [exact Hin | split; [reflexivity |]]].
  apply (tab_stays_in_modal (fun _ => true) [1; 2; 3] [false; false; true; true]
           (mkPage (Some 3) (Some 7) [0]) 3); [reflexivity | exact Hin | reflexivity].
Defined.

(** X22. [_previouslyFocused] is one variable, not a stack.  When a second
    modal is trapped while a first one is, the two calls of [releaseFocus]
    bring the focus back to the first element of the first modal and leave
    it there: the element that had the focus before the first modal is not
    focused again.  A second [releaseFocus] in a row never does
    anything. *)
Theorem nested_traps_restore_once (accepts : nat -> bool) (m1 m2 f1 : nat)
    (rest1 focusable2 : list nat) (p : Page) :
  accepts f1 = true ->
  activeElement
    (releaseFocus accepts
       (releaseFocus accepts
          (trapFocus accepts m2 focusable2
             (trapFocus accepts m1 (f1 :: rest1) p)))) = Some f1 /\
  forall q, releaseFocus accepts (releaseFocus accepts q) = releaseFocus accepts q.
Proof.
  intros Hacc. split.
  - unfold releaseFocus, trapFocus, addEventListener, focus. simpl.
    rewrite Hacc. simpl.
    destruct focusable2 as [|f2 rest2]; simpl.
    + rewrite Hacc. reflexivity.
    + destruct (accepts f2); simpl; rewrite Hacc; reflexivity.
  - intros q. unfold releaseFocus at 1. reflexivity.
Qed.

Lemma nested_traps_restore_once_witness :
  (fun _ : nat => true) 1 = true /\
  activeElement
    (releaseFocus (fun _ => true)
       (releaseFocus (fun _ => true)
          (trapFocus (fun _ => true) 20 [4; 5]
             (trapFocus (fun _ => true) 10 (1 :: [2; 3])
                (mkPage (Some 7) None []))))) = Some 1 /\
  forall q, releaseFocus (fun _ => true) (releaseFocus (fun _ => true) q) =
            releaseFocus (fun _ => true) q.
Proof.
  split; [reflexivity |].
  apply (nested_traps_restore_once (fun _ => true) 10 20 1 [2; 3] [4; 5]
           (mkPage (Some 7) None [])). reflexivity.
Defined.
